(** * Subtitle timeline reassembly: a shallow embedding

    Embedding of [api/models.py], [api/process_transcription.py], of the
    [/transcribe] handler of [api/main.py] and of [chunk_audio] from
    [client/subtitle_client.py].

    Python [str] values are modelled as [string]: sequences of the 256
    characters of [ascii] (code points 0..255).  On that range the regular
    expression class [\d] is exactly ['0'..'9'], and [str.strip()] removes the
    characters listed in [is_space].  A [str] may hold any code point, and
    [\d] then matches every Unicode decimal digit: [Timestamp._parse] is
    embedded a second time, over lists of code points, in [AnyStr].

    Python [int] is [Z]; [//] and [%] with a positive divisor are [Z.div] and
    [Z.modulo] (both round towards minus infinity).  CPython (3.11 and later)
    refuses to convert between [int] and [str] beyond 4300 digits; the
    embedding has no such limit, so a statement that a computation returns is
    made for numbers and digit runs below that limit.

    A raised exception is the [Raise] branch of [result].  Files are read in
    text mode on a POSIX system. *)

From Stdlib Require Import ZArith NArith List String Ascii Bool Lia.
Import ListNotations.

Local Open Scope list_scope.
Local Open Scope string_scope.
Local Open Scope Z_scope.

(** ** Exceptions *)

Inductive exn : Type :=
| ValueError (msg : string).

Inductive result (A : Type) : Type :=
| Ok (a : A)
| Raise (e : exn).

Arguments Ok {A} a.
Arguments Raise {A} e.

Definition bind {A B : Type} (r : result A) (k : A -> result B) : result B :=
  match r with
  | Ok a => k a
  | Raise e => Raise e
  end.

Notation "'do' x <- r ; k" := (bind r (fun x => k))
  (at level 10, x name, r at level 100, k at level 200).

(** ** Characters, [int(...)] and decimal formatting *)

Definition nl : ascii := ascii_of_nat 10.
Definition NL : string := String nl EmptyString.

Definition is_digit (c : ascii) : bool :=
  ((48 <=? nat_of_ascii c) && (nat_of_ascii c <=? 57))%nat.

(** [str.isspace] on code points 0..255. *)
Definition is_space (c : ascii) : bool :=
  let n := nat_of_ascii c in
  (((9 <=? n) && (n <=? 13)) || ((28 <=? n) && (n <=? 32))
   || (n =? 133) || (n =? 160))%nat.

Definition digit_val (c : ascii) : Z := Z.of_nat (nat_of_ascii c) - 48.

Definition digit_char (d : Z) : ascii := ascii_of_nat (Z.to_nat (48 + d)).

Fixpoint all_digits (s : string) : bool :=
  match s with
  | EmptyString => true
  | String c s' => is_digit c && all_digits s'
  end.

(** Value of a run of decimal digits, most significant first. *)
Fixpoint int_digits (acc : Z) (s : string) : Z :=
  match s with
  | EmptyString => acc
  | String c s' => int_digits (10 * acc + digit_val c) s'
  end.

Fixpoint lstrip (s : string) : string :=
  match s with
  | String c s' => if is_space c then lstrip s' else s
  | EmptyString => EmptyString
  end.

(** [rstrip s] drops the trailing white space: a character is kept when it
    is not white space or when something is kept after it. *)
Fixpoint rstrip (s : string) : string :=
  match s with
  | EmptyString => EmptyString
  | String c s' =>
      match rstrip s' with
      | EmptyString => if is_space c then EmptyString else String c EmptyString
      | r => String c r
      end
  end.

Definition strip (s : string) : string := rstrip (lstrip s).

(** White space [int] skips around a literal: the characters [str.isspace]
    accepts, except the separators 28..31. *)
Definition is_int_space (c : ascii) : bool :=
  let n := nat_of_ascii c in
  (((9 <=? n) && (n <=? 13)) || (n =? 32) || (n =? 133) || (n =? 160))%nat.

Fixpoint int_lstrip (s : string) : string :=
  match s with
  | String c s' => if is_int_space c then int_lstrip s' else s
  | EmptyString => EmptyString
  end.

Fixpoint int_rstrip (s : string) : string :=
  match s with
  | EmptyString => EmptyString
  | String c s' =>
      match int_rstrip s' with
      | EmptyString => if is_int_space c then EmptyString else String c EmptyString
      | r => String c r
      end
  end.

(** [repr(s)]: the quote is an apostrophe unless [s] holds an apostrophe and
    no double quote; the quote and the backslash are escaped, tab, newline
    and carriage return are written [\t], [\n], [\r], any other character
    that is not printable is written [\xNN]. *)
Definition dquote : ascii := ascii_of_nat 34.
Definition backslash : ascii := ascii_of_nat 92.

Fixpoint contains (c : ascii) (s : string) : bool :=
  match s with
  | EmptyString => false
  | String c' s' => Ascii.eqb c c' || contains c s'
  end.

Definition printable (c : ascii) : bool :=
  let n := nat_of_ascii c in
  (((32 <=? n) && (n <=? 126)) || ((161 <=? n) && negb (n =? 173)))%nat.

Definition hex_digit (n : nat) : ascii :=
  ascii_of_nat (if (n <? 10)%nat then 48 + n else 87 + n).

Definition repr_char (quote c : ascii) : string :=
  let escaped (x : ascii) := String backslash (String x EmptyString) in
  if Ascii.eqb c quote || Ascii.eqb c backslash then escaped c
  else if Ascii.eqb c (ascii_of_nat 9) then escaped "t"%char
  else if Ascii.eqb c (ascii_of_nat 10) then escaped "n"%char
  else if Ascii.eqb c (ascii_of_nat 13) then escaped "r"%char
  else if printable c then String c EmptyString
  else String backslash
         (String "x"%char
            (String (hex_digit (nat_of_ascii c / 16))
               (String (hex_digit (nat_of_ascii c mod 16)) EmptyString))).

Fixpoint repr_body (quote : ascii) (s : string) : string :=
  match s with
  | EmptyString => EmptyString
  | String c s' => repr_char quote c ++ repr_body quote s'
  end.

Definition repr (s : string) : string :=
  let quote := if contains "'" s && negb (contains dquote s) then dquote else "'"%char in
  String quote (repr_body quote s ++ String quote EmptyString).

(** [int(s)] for a [str]: optional surrounding white space, an optional sign
    and a non-empty run of digits; otherwise a [ValueError] whose text ends in
    the first 200 characters of [repr(s)].  (Python also accepts single
    underscores between digits; no caller below can pass one: the file-name
    piece comes out of [split("_")] and the block index is matched by
    [\d+].) *)
Definition py_int (s : string) : result Z :=
  let bad :=
    Raise (ValueError ("invalid literal for int() with base 10: "
                       ++ substring 0 200 (repr s))) in
  let unsigned (d : string) (sign : Z) :=
    match d with
    | EmptyString => bad
    | _ => if all_digits d then Ok (sign * int_digits 0 d) else bad
    end in
  match int_rstrip (int_lstrip s) with
  | String "-" d => unsigned d (-1)
  | String "+" d => unsigned d 1
  | d => unsigned d 1
  end.

(** Decimal digits of a non-negative integer, as [str(n)] prints them. *)
Fixpoint digits_aux (fuel : nat) (n : Z) (acc : string) : string :=
  match fuel with
  | O => acc
  | S fuel' =>
      let acc' := String (digit_char (n mod 10)) acc in
      if n <? 10 then acc' else digits_aux fuel' (n / 10) acc'
  end.

Definition str_nonneg (n : Z) : string :=
  digits_aux (S (Z.to_nat (Z.log2 n))) n EmptyString.

(** [str(z)] and [f"{z}"]. *)
Definition str_int (z : Z) : string :=
  if z <? 0 then String "-" (str_nonneg (- z)) else str_nonneg z.

Fixpoint zeros (n : nat) : string :=
  match n with
  | O => EmptyString
  | S n' => String "0" (zeros n')
  end.

Definition zfill (w : nat) (s : string) : string :=
  zeros (w - String.length s) ++ s.

(** [f"{z:0w}"]: zero padding to total width [w], the sign first. *)
Definition format_int (w : nat) (z : Z) : string :=
  if z <? 0 then String "-" (zfill (w - 1) (str_nonneg (- z)))
  else zfill w (str_nonneg z).

(** CPython's default limit on the number of digits of an [int] that is
    converted from or to a [str]: beyond it the conversion raises
    [ValueError]. *)
Definition int_max_str_digits : nat := 4300.

(** ** Regular-expression pieces *)

(** [\d{n}] at the head of [s]: the [n] digits and the rest. *)
Fixpoint take_digits (n : nat) (s : string) : option (string * string) :=
  match n with
  | O => Some (EmptyString, s)
  | S n' =>
      match s with
      | String c s' =>
          if is_digit c then
            match take_digits n' s' with
            | Some (d, r) => Some (String c d, r)
            | None => None
            end
          else None
      | EmptyString => None
      end
  end.

(** A literal at the head of [s]. *)
Fixpoint expect (lit s : string) : option string :=
  match lit with
  | EmptyString => Some s
  | String c lit' =>
      match s with
      | String c' s' => if Ascii.eqb c c' then expect lit' s' else None
      | EmptyString => None
      end
  end.

Definition obind {A B : Type} (o : option A) (k : A -> option B) : option B :=
  match o with
  | Some a => k a
  | None => None
  end.

Notation "'let?' x := o 'in' k" := (obind o (fun x => k))
  (at level 10, x pattern, o at level 100, k at level 200).

(** ** [class Timestamp] *)

Module Timestamp.

Record t : Type := Build { milliseconds : Z }.

(** [re.match(r'(\d{2}):(\d{2}):(\d{2}),(\d{3})', time)]: anchored at the
    start of [time] only.  Returns the four groups and what follows the
    match. *)
Definition re_match (time : string)
  : option (string * string * string * string * string) :=
  let? (hr, r1) := take_digits 2 time in
  let? r2 := expect ":" r1 in
  let? (mi, r3) := take_digits 2 r2 in
  let? r4 := expect ":" r3 in
  let? (s, r5) := take_digits 2 r4 in
  let? r6 := expect "," r5 in
  let? (ms, r7) := take_digits 3 r6 in
  Some (hr, mi, s, ms, r7).

Definition _parse (time : string) : result Z :=
  match re_match time with
  | None => Raise (ValueError ("Invalid timestamp format: " ++ time))
  | Some (hr, mi, s, ms, _) =>
      Ok ((int_digits 0 hr * 3600 + int_digits 0 mi * 60 + int_digits 0 s) * 1000
          + int_digits 0 ms)
  end.

Definition __init__ (time : option string) (ms : option Z) : result t :=
  match ms, time with
  | Some m, _ => Ok (Build m)
  | None, Some tm => do m <- _parse tm; Ok (Build m)
  | None, None => Ok (Build 0)
  end.

Definition __str__ (self : t) : string :=
  let ms := milliseconds self mod 1000 in
  let s := (milliseconds self / 1000) mod 60 in
  let mi := (milliseconds self / (1000 * 60)) mod 60 in
  let hr := milliseconds self / (1000 * 3600) in
  format_int 2 hr ++ ":" ++ format_int 2 mi ++ ":" ++ format_int 2 s
    ++ "," ++ format_int 3 ms.

Definition __add__ (self other : t) : t :=
  Build (milliseconds self + milliseconds other).

End Timestamp.

(** ** [Timestamp._parse] on any [str] *)

(** A [str] as the list of its code points.  [decimal c] is the value of the
    character [c] when [c] is a decimal digit, [None] otherwise: the decimal
    digits are the characters [\d] matches in a [str] pattern, and [int]
    reads each of them as its value.  [re_match] and [_parse] follow
    [Timestamp.re_match] and [Timestamp._parse] line by line. *)
Module AnyStr.

Definition str : Type := list N.

Fixpoint code_points (s : string) : str :=
  match s with
  | EmptyString => []
  | String c s' => N.of_nat (nat_of_ascii c) :: code_points s'
  end.

Inductive outcome : Type :=
| Returns (milliseconds : Z)
| RaisesValueError (msg : str).

Definition colon : N := 58.
Definition comma : N := 44.

Section Decimal.

Variable decimal : N -> option Z.

(** [\d{n}] at the head of [s]: the values of the [n] digits and the rest. *)
Fixpoint take_digits (n : nat) (s : str) : option (list Z * str) :=
  match n with
  | O => Some ([], s)
  | S n' =>
      match s with
      | c :: s' =>
          match decimal c with
          | Some d =>
              match take_digits n' s' with
              | Some (ds, r) => Some (d :: ds, r)
              | None => None
              end
          | None => None
          end
      | [] => None
      end
  end.

(** One literal character at the head of [s]. *)
Definition expect (lit : N) (s : str) : option str :=
  match s with
  | c :: s' => if (lit =? c)%N then Some s' else None
  | [] => None
  end.

(** [int(group)] for a group of decimal digits, given by their values. *)
Definition int_of (ds : list Z) : Z :=
  fold_left (fun acc d => 10 * acc + d) ds 0.

Definition re_match (time : str)
  : option (list Z * list Z * list Z * list Z) :=
  let? (hr, r1) := take_digits 2 time in
  let? r2 := expect colon r1 in
  let? (mi, r3) := take_digits 2 r2 in
  let? r4 := expect colon r3 in
  let? (s, r5) := take_digits 2 r4 in
  let? r6 := expect comma r5 in
  let? (ms, _) := take_digits 3 r6 in
  Some (hr, mi, s, ms).

Definition _parse (time : str) : outcome :=
  match re_match time with
  | None => RaisesValueError (code_points "Invalid timestamp format: " ++ time)%list
  | Some (hr, mi, s, ms) =>
      Returns ((int_of hr * 3600 + int_of mi * 60 + int_of s) * 1000 + int_of ms)
  end.

(** The predicates of the statements: the exact form [DD:DD:DD,DDD], [D]
    any decimal digit, and the milliseconds such a string stands for. *)
Definition is_decimal (c : N) : bool :=
  match decimal c with
  | Some _ => true
  | None => false
  end.

Definition digit_value (c : N) : Z :=
  match decimal c with
  | Some d => d
  | None => 0
  end.

Definition stamp_form (s : str) : bool :=
  match s with
  | [h1; h2; c1; m1; m2; c2; s1; s2; c3; f1; f2; f3] =>
      is_decimal h1 && is_decimal h2 && (colon =? c1)%N
      && is_decimal m1 && is_decimal m2 && (colon =? c2)%N
      && is_decimal s1 && is_decimal s2 && (comma =? c3)%N
      && is_decimal f1 && is_decimal f2 && is_decimal f3
  | _ => false
  end.

Definition stamp_value (s : str) : Z :=
  match s with
  | h1 :: h2 :: _ :: m1 :: m2 :: _ :: s1 :: s2 :: _ :: f1 :: f2 :: f3 :: _ =>
      ((10 * digit_value h1 + digit_value h2) * 3600
       + (10 * digit_value m1 + digit_value m2) * 60
       + (10 * digit_value s1 + digit_value s2)) * 1000
      + (100 * digit_value f1 + 10 * digit_value f2 + digit_value f3)
  | _ => 0
  end.

End Decimal.

(** The decimal digits below 256: ['0'..'9']. *)
Definition latin1_decimal (c : N) : option Z :=
  if ((48 <=? c) && (c <=? 57))%N then Some (Z.of_N c - 48) else None.

(** Two of the blocks of decimal digits of Unicode: ['0'..'9'] and the
    fullwidth digits U+FF10..U+FF19. *)
Definition with_fullwidth (c : N) : option Z :=
  if ((48 <=? c) && (c <=? 57))%N then Some (Z.of_N c - 48)
  else if ((65296 <=? c) && (c <=? 65305))%N then Some (Z.of_N c - 65296)
  else None.

End AnyStr.

(** Python truth value of an [Optional[str]]: [None] and the empty string
    are both false. *)
Definition truthy (o : option string) : bool :=
  match o with
  | Some (String _ _) => true
  | _ => false
  end.

Definition str_of (o : option string) : string :=
  match o with
  | Some s => s
  | None => EmptyString
  end.

(** ** [class SubtitleEntry] *)

Module SubtitleEntry.

Record t : Type := Build {
  index : Z;
  start_time : string;
  end_time : string;
  text : string;
  translation : option string
}.

Definition to_srt_block (self : t) (use_translation is_bilingual : bool)
  : string :=
  let content :=
    if use_translation && truthy (translation self)
    then str_of (translation self) else text self in
  let content :=
    if is_bilingual && truthy (translation self)
    then text self ++ NL ++ str_of (translation self) else content in
  str_int (index self) ++ NL ++ start_time self ++ " --> " ++ end_time self
    ++ NL ++ content ++ NL.

Definition offset (self : t) (offset_ms : Z) : result t :=
  do t1 <- Timestamp.__init__ (Some (start_time self)) None;
  do o1 <- Timestamp.__init__ None (Some offset_ms);
  let start_ts := Timestamp.__add__ t1 o1 in
  do t2 <- Timestamp.__init__ (Some (end_time self)) None;
  do o2 <- Timestamp.__init__ None (Some offset_ms);
  let end_ts := Timestamp.__add__ t2 o2 in
  Ok (Build (index self) (Timestamp.__str__ start_ts)
        (Timestamp.__str__ end_ts) (text self) (translation self)).

(** [subtitle.index += offset_index] *)
Definition add_index (self : t) (offset_index : Z) : t :=
  Build (index self + offset_index) (start_time self) (end_time self)
    (text self) (translation self).

(** [subtitle.translation = tr] *)
Definition set_translation (self : t) (tr : string) : t :=
  Build (index self) (start_time self) (end_time self) (text self) (Some tr).

End SubtitleEntry.

(** ** The block pattern of [Transcription.from_srt] *)

(** [\d+] at the head of [s]: the longest run of digits, at least one.  The
    pattern continues with a newline, so no shorter run can succeed where the
    longest one fails. *)
Fixpoint digit_run (s : string) : string * string :=
  match s with
  | String c s' =>
      if is_digit c then let (d, r) := digit_run s' in (String c d, r)
      else (EmptyString, s)
  | EmptyString => (EmptyString, EmptyString)
  end.

(** The group [(\d{2}:\d{2}:\d{2},\d{3})] at the head of [s]. *)
Definition take_stamp (s : string) : option (string * string) :=
  let? (hr, r1) := take_digits 2 s in
  let? r2 := expect ":" r1 in
  let? (mi, r3) := take_digits 2 r2 in
  let? r4 := expect ":" r3 in
  let? (sec, r5) := take_digits 2 r4 in
  let? r6 := expect "," r5 in
  let? (ms, r7) := take_digits 3 r6 in
  Some (hr ++ ":" ++ mi ++ ":" ++ sec ++ "," ++ ms, r7).

(** The tail of [(.+?)(?=\n\n|\Z)] under [re.DOTALL], after its first
    character: the shortest run of arbitrary characters that ends before a
    blank line or at the end of the input. *)
Fixpoint lazy_text (s : string) : string * string :=
  match s with
  | EmptyString => (EmptyString, EmptyString)
  | String c s' =>
      match expect (NL ++ NL) s with
      | Some _ => (EmptyString, s)
      | None => let (t, r) := lazy_text s' in (String c t, r)
      end
  end.

(** One match of the block pattern at the head of [s]: the four groups and
    the input after the match (the look-ahead consumes nothing). *)
Definition match_block (s : string)
  : option (string * string * string * string * string) :=
  match digit_run s with
  | (EmptyString, _) => None
  | (idx, r0) =>
      let? r1 := expect NL r0 in
      let? (st, r2) := take_stamp r1 in
      let? r3 := expect " --> " r2 in
      let? (en, r4) := take_stamp r3 in
      let? r5 := expect NL r4 in
      match r5 with
      | EmptyString => None
      | String c r6 => let (t, r7) := lazy_text r6 in Some (idx, st, en, String c t, r7)
      end
  end.

(** [re.findall]: scan left to right; a match is recorded and the scan
    resumes where it ended, otherwise it moves one character on.  [skip]
    counts the characters of the last match still to be passed over. *)
Fixpoint findall (skip : nat) (s : string)
  : list (string * string * string * string) :=
  match s with
  | EmptyString => []
  | String _ s' =>
      match skip with
      | S k => findall k s'
      | O =>
          match match_block s with
          | Some (idx, st, en, t, rest) =>
              (idx, st, en, t)
                :: findall (String.length s - String.length rest - 1) s'
          | None => findall 0 s'
          end
      end
  end.

(** ** The translation service *)

(** [class Translation]: one [{id, text}] pair of the response. *)
Record Translation : Type := mkTranslation {
  id : Z;
  tr_text : string
}.

(** What one call hands to [get_translation_prompt]: the target language and
    the three [{id, text}] lists. *)
Record Prompt : Type := mkPrompt {
  target_language : string;
  context_before : list (Z * string);
  texts_to_translate : list (Z * string);
  context_after : list (Z * string)
}.

(** [next((t for t in translations if t.id == idx), None)] *)
Definition find_translation (translations : list Translation) (idx : Z)
  : option Translation :=
  find (fun t => id t =? idx) translations.

(** List slice [l[a:b]] for [0 <= a]. *)
Definition slice {A : Type} (l : list A) (a b : nat) : list A :=
  firstn (b - a) (skipn a l).

(** [range(0, n, step)] for a positive [step]; [k] counts the values left. *)
Fixpoint range_from (k : nat) (i step : nat) : list nat :=
  match k with
  | O => []
  | S k' => i :: range_from k' (i + step) step
  end.

Definition range_step (n step : nat) : list nat :=
  range_from ((n + step - 1) / step) 0 step.

(** ** [class Transcription] *)

Module Transcription.

Record t : Type := Build {
  subtitles : list SubtitleEntry.t;
  end_time : Z;
  end_index : Z;
  language : option string
}.

Definition from_srt (srt_content : string) (end_time : Z) : t :=
  let matches := findall 0 (strip srt_content ++ NL ++ NL) in
  let subs :=
    map (fun m : string * string * string * string =>
           let '(idx, st, en, txt) := m in
           SubtitleEntry.Build (int_digits 0 idx) st en (strip txt) None)
        matches in
  let end_idx :=
    match rev subs with
    | [] => 0
    | e :: _ => SubtitleEntry.index e
    end in
  Build subs end_time end_idx None.

(** The loop of [offset] over the entries: each one is shifted in time and
    renumbered. *)
Fixpoint offset_entries (subs : list SubtitleEntry.t) (offset_ms offset_index : Z)
  : result (list SubtitleEntry.t) :=
  match subs with
  | [] => Ok []
  | e :: rest =>
      do e' <- SubtitleEntry.offset e offset_ms;
      do rest' <- offset_entries rest offset_ms offset_index;
      Ok (SubtitleEntry.add_index e' offset_index :: rest')
  end.

(** [offset] rewrites the entries only: [end_time] and [end_index] of the
    object keep their values. *)
Definition offset (self : t) (offset_ms offset_index : Z) : result t :=
  do subs <- offset_entries (subtitles self) offset_ms offset_index;
  Ok (Build subs (end_time self) (end_index self) (language self)).

Definition to_srt (self : t) (use_translation is_bilingual : bool) : string :=
  String.concat NL
    (map (fun sub => SubtitleEntry.to_srt_block sub use_translation is_bilingual)
         (subtitles self)).

End Transcription.

(** ** [Transcription.translate_subtitles] *)

Definition id_text (s : SubtitleEntry.t) : Z * string :=
  (SubtitleEntry.index s, SubtitleEntry.text s).

(** The assignment in the inner loop: the text of the first returned pair
    whose [id] is the entry's index, the empty string when there is none. *)
Definition assign_translation (response : list Translation) (s : SubtitleEntry.t)
  : SubtitleEntry.t :=
  SubtitleEntry.set_translation s
    match find_translation response (SubtitleEntry.index s) with
    | Some t => tr_text t
    | None => EmptyString
    end.

Section Translate.

(** The external translator: the answer to the [k]-th call, given the
    prompt data of that call.  [batch_size] and [overlap] are taken
    non-negative; [range] raises on a zero step. *)
Variable client : nat -> Prompt -> list Translation.
Variable lang : string.
Variables batch_size overlap : nat.

Definition batch_prompt (subs : list SubtitleEntry.t) (i : nat) : Prompt :=
  let batch := slice subs i (i + batch_size) in
  let start_ctx := Nat.max 0 (i - overlap) in
  let end_ctx := Nat.min (List.length subs) (i + batch_size + overlap) in
  let prev_ctx := if (0 <? i)%nat then slice subs start_ctx i else [] in
  let next_ctx :=
    if (i + batch_size <? List.length subs)%nat
    then slice subs (i + batch_size) end_ctx else [] in
  mkPrompt lang (map id_text prev_ctx) (map id_text batch) (map id_text next_ctx).

(** One iteration of the outer loop, the [k]-th, at batch start [i]: the
    entries of the batch are the objects of [self.subtitles] at positions
    [i .. i + batch_size), so assigning to them rewrites those positions. *)
Definition translate_batch (k : nat) (subs : list SubtitleEntry.t) (i : nat)
  : list SubtitleEntry.t :=
  let response := client k (batch_prompt subs i) in
  firstn i subs
    ++ map (assign_translation response) (slice subs i (i + batch_size))
    ++ skipn (i + batch_size) subs.

(** The outer loop over the batch starts; returns the entries and the
    prompts of the calls made, in call order. *)
Fixpoint translate_loop (k : nat) (subs : list SubtitleEntry.t) (starts : list nat)
  : list SubtitleEntry.t * list Prompt :=
  match starts with
  | [] => (subs, [])
  | i :: rest =>
      let p := batch_prompt subs i in
      let (subs', ps) := translate_loop (S k) (translate_batch k subs i) rest in
      (subs', p :: ps)
  end.

Definition translate_subtitles (self : Transcription.t)
  : result (Transcription.t * list Prompt) :=
  match batch_size with
  | O => Raise (ValueError "range() arg 3 must not be zero")
  | _ =>
      let starts := range_step (List.length (Transcription.subtitles self)) batch_size in
      let (subs, calls) := translate_loop 0 (Transcription.subtitles self) starts in
      Ok (Transcription.Build subs (Transcription.end_time self)
            (Transcription.end_index self) (Transcription.language self), calls)
  end.

End Translate.

(** ** Paths *)

(** [s.rfind(c)], counting positions from [pos]. *)
Fixpoint rfind (c : ascii) (s : string) (pos : nat) : option nat :=
  match s with
  | EmptyString => None
  | String c' s' =>
      match rfind c s' (S pos) with
      | Some j => Some j
      | None => if Ascii.eqb c c' then Some pos else None
      end
  end.

(** Position of the dot that starts [PurePath.suffix], if the name has one:
    the last dot, neither first nor last character of the name. *)
Definition suffix_dot (name : string) : option nat :=
  match rfind "." name 0 with
  | Some i => if ((0 <? i) && (i <? String.length name - 1))%nat then Some i else None
  | None => None
  end.

Definition suffix (name : string) : string :=
  match suffix_dot name with
  | Some i => substring i (String.length name - i) name
  | None => EmptyString
  end.

Definition stem (name : string) : string :=
  match suffix_dot name with
  | Some i => substring 0 i name
  | None => name
  end.

(** [s.split(sep)[-1]] *)
Definition last_piece (sep : ascii) (s : string) : string :=
  match rfind sep s 0 with
  | Some i => substring (S i) (String.length s - S i) s
  | None => s
  end.

Definition ends_with (suf s : string) : bool :=
  (String.length suf <=? String.length s)%nat
  && String.eqb (substring (String.length s - String.length suf) (String.length suf) s) suf.

(** A directory: its files by name, with their contents. *)
Definition directory (A : Type) : Type := list (string * A).

(** [sorted(...)] on paths of one directory: by file name, code point by
    code point. *)
Fixpoint insert_by_name {A : Type} (x : string * A) (l : directory A) : directory A :=
  match l with
  | [] => [x]
  | y :: l' => if String.leb (fst x) (fst y) then x :: l else y :: insert_by_name x l'
  end.

Definition sorted {A : Type} (l : directory A) : directory A :=
  fold_right insert_by_name [] l.

(** [input_directory.glob("*.srt")] *)
Definition glob_srt {A : Type} (d : directory A) : directory A :=
  filter (fun f => ends_with ".srt" (fst f)) d.

(** ** [process_transcription.py] *)

(** What [f.read()] returns for a file opened in text mode that holds [s]:
    every [\r\n] and every other [\r] is read as [\n]. *)
Fixpoint universal_newlines (s : string) : string :=
  match s with
  | EmptyString => EmptyString
  | String c s' =>
      if Ascii.eqb c (ascii_of_nat 13) then
        String nl
          match s' with
          | String c' s'' =>
              if Ascii.eqb c' nl then universal_newlines s'' else universal_newlines s'
          | EmptyString => EmptyString
          end
      else String c (universal_newlines s')
  end.

(** [create_transcription]: every [.wav] file of the input directory, in
    sorted order, is sent to the transcription service and its answer is
    written under the same stem with suffix [.srt].  A directory of [.srt]
    files pairs each name with the text [process_transcription] reads from
    the file. *)
Definition create_transcription {A : Type} (whisper : A -> string)
    (input_directory : directory A) : directory string :=
  map (fun chunk =>
         (stem (fst chunk) ++ ".srt", universal_newlines (whisper (snd chunk))))
    (filter (fun chunk => String.eqb (suffix (fst chunk)) ".wav")
       (sorted input_directory)).

(** The files in the order in which [process_transcription] reads them. *)
Definition srt_files (input_directory : directory string) : directory string :=
  sorted (glob_srt input_directory).

(** The body of the loop of [process_transcription] for one file. *)
Definition merge_file (combined : Transcription.t) (srt_file : string * string)
  : result Transcription.t :=
  let (name, srt_content) := srt_file in
  do end_time <- py_int (last_piece "_" (stem name));
  let transcription := Transcription.from_srt srt_content end_time in
  do transcription <-
    match Transcription.subtitles combined with
    | [] => Ok transcription
    | _ => Transcription.offset transcription
             (Transcription.end_time combined) (Transcription.end_index combined)
    end;
  Ok (Transcription.Build
        (Transcription.subtitles combined ++ Transcription.subtitles transcription)
        (Transcription.end_time transcription)
        (Transcription.end_index transcription)
        (Transcription.language combined)).

Fixpoint merge_files (combined : Transcription.t) (files : directory string)
  : result Transcription.t :=
  match files with
  | [] => Ok combined
  | f :: rest => do combined' <- merge_file combined f; merge_files combined' rest
  end.

Definition process_transcription (input_directory : directory string)
  : result Transcription.t :=
  merge_files (Transcription.Build [] 0 0 None) (srt_files input_directory).

(** The watermark after each merge, for the files in reading order. *)
Fixpoint merge_trace (combined : Transcription.t) (files : directory string)
  : list (result Transcription.t) :=
  match files with
  | [] => []
  | f :: rest =>
      match merge_file combined f with
      | Ok combined' => Ok combined' :: merge_trace combined' rest
      | Raise e => [Raise e]
      end
  end.

(** ** [chunk_audio] *)

(** One exported chunk: the file [chunk_{idx}_{start}.wav], holding the audio
    from [chunk_start] up to [chunk_end] (milliseconds of the original
    audio). *)
Record Chunk : Type := mkChunk {
  chunk_idx : Z;
  chunk_start : Z;
  chunk_end : Z
}.

Definition chunk_name (c : Chunk) : string :=
  "chunk_" ++ str_int (chunk_idx c) ++ "_" ++ str_int (chunk_start c) ++ ".wav".

(** [min(candidates, key=lambda s: abs(s - ideal_end))]: the first candidate
    at the least distance. *)
Fixpoint closest (ideal_end best : Z) (candidates : list Z) : Z :=
  match candidates with
  | [] => best
  | s :: rest =>
      if Z.abs (s - ideal_end) <? Z.abs (best - ideal_end)
      then closest ideal_end s rest else closest ideal_end best rest
  end.

Section Chunker.

(** [len(audio)], [max_duration_ms] and the midpoints of the detected
    silences, in the order [detect_silence] reports them. *)
Variables (audio_len max_duration_ms : Z) (silence_midpoints : list Z).

Definition flexibility : Z := max_duration_ms / 5.

Definition cut_point_at (start : Z) : Z :=
  let ideal_end := start + max_duration_ms in
  let window_start := ideal_end - flexibility in
  let window_end := ideal_end + flexibility in
  let candidates :=
    filter (fun s => (window_start <=? s) && (s <=? window_end)) silence_midpoints in
  match candidates with
  | [] => ideal_end
  | s :: rest => closest ideal_end s rest
  end.

(** The [while] loop.  A slice [audio[a:b]] with [0 <= a <= len] holds the
    audio from [a] up to [min b len], and [audio[a:]] up to [len].  [None]:
    the loop has not ended within [fuel] iterations. *)
Fixpoint chunk_loop (fuel : nat) (start idx : Z) : option (list Chunk) :=
  match fuel with
  | O => None
  | S fuel' =>
      if start <? audio_len then
        let ideal_end := start + max_duration_ms in
        if ideal_end >=? audio_len then
          Some [mkChunk idx start audio_len]
        else
          let cut_point := cut_point_at start in
          match chunk_loop fuel' cut_point (idx + 1) with
          | Some chunks =>
              Some (mkChunk idx start (Z.min cut_point audio_len) :: chunks)
          | None => None
          end
      else Some []
  end.

Definition chunk_audio : option (list Chunk) :=
  if audio_len <=? max_duration_ms then Some [mkChunk 0 0 audio_len]
  else chunk_loop (S (Z.to_nat audio_len)) 0 0.

End Chunker.

(** ** The upload job of [main.py] *)

(** The chunk files as the client uploads them and the endpoint stores them:
    under the names the chunker gave them. *)
Definition upload (chunks : list Chunk) : directory Chunk :=
  map (fun c => (chunk_name c, c)) chunks.

(** [create_transcription] followed by [process_transcription]; [whisper]
    is the external transcription service, applied to a chunk's audio. *)
Definition transcribe_job (whisper : Chunk -> string) (chunks_dir : directory Chunk)
  : result Transcription.t :=
  process_transcription (create_transcription whisper chunks_dir).

(** Start of an entry in milliseconds. *)
Definition start_ms (e : SubtitleEntry.t) : result Z :=
  Timestamp._parse (SubtitleEntry.start_time e).

(** ** Rendering modes *)

Inductive mode : Type := Original | Translated | Bilingual.

(** The flags with which [main.py] asks for the three documents. *)
Definition render_block (m : mode) (e : SubtitleEntry.t) : string :=
  match m with
  | Original => SubtitleEntry.to_srt_block e false false
  | Translated => SubtitleEntry.to_srt_block e true false
  | Bilingual => SubtitleEntry.to_srt_block e false true
  end.

(** ** Predicates of the statements *)

(** The exact form [DD:DD:DD,DDD], nothing before or after. *)
Definition stamp_form (s : string) : bool :=
  match s with
  | String h1 (String h2 (String c1 (String m1 (String m2 (String c2
      (String s1 (String s2 (String c3 (String f1 (String f2 (String f3
        EmptyString))))))))))) =>
      is_digit h1 && is_digit h2 && Ascii.eqb ":" c1
      && is_digit m1 && is_digit m2 && Ascii.eqb ":" c2
      && is_digit s1 && is_digit s2 && Ascii.eqb "," c3
      && is_digit f1 && is_digit f2 && is_digit f3
  | _ => false
  end.

(** The number written in the [len] characters of [s] from position [pos]. *)
Definition field (s : string) (pos len : nat) : Z :=
  int_digits 0 (substring pos len s).

(** The milliseconds a string of the form [DD:DD:DD,DDD] stands for. *)
Definition stamp_value (s : string) : Z :=
  (field s 0 2 * 3600 + field s 3 2 * 60 + field s 6 2) * 1000 + field s 9 3.

(** Consecutive chunks [c] with [chunk_start c < chunk_end c] that start at
    [a], each beginning where the one before ends, the last ending at [b]. *)
Fixpoint tiling (a b : Z) (cs : list Chunk) : bool :=
  match cs with
  | [] => a =? b
  | c :: rest =>
      (chunk_start c =? a) && (a <? chunk_end c) && tiling (chunk_end c) b rest
  end.

Definition chunk_length (c : Chunk) : Z := chunk_end c - chunk_start c.

(** The content of a block as the specification words it: a translation is
    present when the field is not [None]; bilingual mode alone treats the
    empty string as no translation. *)
Definition spec_content (m : mode) (e : SubtitleEntry.t) : string :=
  match m with
  | Original => SubtitleEntry.text e
  | Translated =>
      match SubtitleEntry.translation e with
      | Some tr => tr
      | None => SubtitleEntry.text e
      end
  | Bilingual =>
      match SubtitleEntry.translation e with
      | Some (String c tr) => SubtitleEntry.text e ++ NL ++ String c tr
      | _ => SubtitleEntry.text e
      end
  end.

(** The content the code emits: the empty string counts as no translation
    in translated mode as well. *)
Definition code_content (m : mode) (e : SubtitleEntry.t) : string :=
  match m with
  | Original => SubtitleEntry.text e
  | Translated =>
      match SubtitleEntry.translation e with
      | Some (String c tr) => String c tr
      | _ => SubtitleEntry.text e
      end
  | Bilingual =>
      match SubtitleEntry.translation e with
      | Some (String c tr) => SubtitleEntry.text e ++ NL ++ String c tr
      | _ => SubtitleEntry.text e
      end
  end.

Definition block_of (e : SubtitleEntry.t) (content : string) : string :=
  str_int (SubtitleEntry.index e) ++ NL ++ SubtitleEntry.start_time e ++ " --> "
    ++ SubtitleEntry.end_time e ++ NL ++ content ++ NL.

(** ** Sample transcripts *)

Definition srt_block (idx st en txt : string) : string :=
  idx ++ NL ++ st ++ " --> " ++ en ++ NL ++ txt ++ NL ++ NL.

(** A transcription service that hears the same two cues in every chunk,
    one second and five minutes into it. *)
Definition two_cues (_ : Chunk) : string :=
  srt_block "1" "00:00:01,000" "00:00:02,000" "first"
    ++ srt_block "2" "00:05:00,000" "00:05:02,000" "second".

(** A transcription service whose single cue names the chunk it came from. *)
Definition own_number (c : Chunk) : string :=
  srt_block "1" "00:00:01,000" "00:00:02,000" (str_int (chunk_idx c)).

(** An entry the translation pass left with the empty string. *)
Definition unmatched_entry : SubtitleEntry.t :=
  SubtitleEntry.Build 1 "00:00:01,000" "00:00:02,000" "Hello" (Some EmptyString).

(** Three transcripts of one cue each; the file names place the chunks at
    0 h, 100 h and 200 h of the original audio. *)
Definition hundred_hours_dir : directory string :=
  [ ("chunk_0_0.srt", srt_block "1" "00:00:01,000" "00:00:02,000" "a");
    ("chunk_1_360000000.srt", srt_block "1" "00:00:01,000" "00:00:02,000" "b");
    ("chunk_2_720000000.srt", srt_block "1" "00:00:01,000" "00:00:02,000" "c") ].

(** An entry whose times were formatted past 99 hours. *)
Definition late_entry : SubtitleEntry.t :=
  SubtitleEntry.Build 1 "100:00:00,000" "100:00:01,000" "late" None.

(** A Timeline of 65 entries numbered from 1. *)
Definition sample_entry (n : nat) : SubtitleEntry.t :=
  SubtitleEntry.Build (Z.of_nat n) "00:00:00,000" "00:00:01,000" "line" None.

Definition sample_timeline : Transcription.t :=
  Transcription.Build (map sample_entry (seq 1 65)) 0 65 None.

(** A translator that answers for the even ids of the batch only. *)
Definition sparse_client (_ : nat) (p : Prompt) : list Translation :=
  map (fun it => mkTranslation (fst it) "ok")
    (filter (fun it => Z.even (fst it)) (texts_to_translate p)).

(** The value of [max_duration_ms] when [transcribe] calls [chunk_audio]. *)
Definition default_max_duration_ms : Z := 600000.

(** What the assembler holds after a merge: [(end_time, end_index)]. *)
Definition watermark (r : result Transcription.t) : option (Z * Z) :=
  match r with
  | Ok tr => Some (Transcription.end_time tr, Transcription.end_index tr)
  | Raise _ => None
  end.

(** ** The [/transcribe] endpoint of [main.py] *)

Record TranscriptionResponse : Type := mkResponse {
  english_srt : string;
  translated_srt : string;
  bilingual_srt : string
}.

(** What the handler gives back: the response model, or the [HTTPException]
    it raises. *)
Inductive http_result : Type :=
| Response (body : TranscriptionResponse)
| HTTPException (status_code : Z) (detail : string).

(** [str(e)] for the exception [e]. *)
Definition str_exn (e : exn) : string :=
  match e with
  | ValueError msg => msg
  end.

(** The body of the [try] block once the uploads are stored in [chunks_dir]:
    transcribe, merge, translate with the default batch size and overlap,
    render the three documents.  Any exception becomes a 500 whose detail is
    the exception's text. *)
Definition transcribe (whisper : Chunk -> string)
    (client : nat -> Prompt -> list Translation)
    (chunks_dir : directory Chunk) (target_language : string) : http_result :=
  match transcribe_job whisper chunks_dir with
  | Raise e => HTTPException 500 (str_exn e)
  | Ok combined =>
      match translate_subtitles client target_language 30 5 combined with
      | Raise e => HTTPException 500 (str_exn e)
      | Ok (combined, _) =>
          Response (mkResponse (Transcription.to_srt combined false false)
                      (Transcription.to_srt combined true false)
                      (Transcription.to_srt combined false true))
      end
  end.

(** ** Further predicates of the statements *)

(** Both times of an entry have the exact form [DD:DD:DD,DDD]. *)
Definition well_stamped (e : SubtitleEntry.t) : Prop :=
  stamp_form (SubtitleEntry.start_time e) = true
  /\ stamp_form (SubtitleEntry.end_time e) = true.

Fixpoint string_forall (p : ascii -> bool) (s : string) : bool :=
  match s with
  | EmptyString => true
  | String c s' => p c && string_forall p s'
  end.

(** The characters [str(z)] is made of. *)
Definition sign_or_digit (c : ascii) : bool := is_digit c || Ascii.eqb c "-".

(** The stem of the file name the chunker gives a chunk. *)
Definition chunk_stem (c : Chunk) : string :=
  "chunk_" ++ str_int (chunk_idx c) ++ "_" ++ str_int (chunk_start c).

(** The number [process_transcription] reads from a file name, 0 when there
    is none. *)
Definition number_in_name (name : string) : Z :=
  match py_int (last_piece "_" (stem name)) with
  | Ok z => z
  | Raise _ => 0
  end.

(** What an entry holds apart from its translation. *)
Definition original_fields (e : SubtitleEntry.t) : Z * string * string * string :=
  (SubtitleEntry.index e, SubtitleEntry.start_time e, SubtitleEntry.end_time e,
   SubtitleEntry.text e).

(** The string the inner loop of [translate_subtitles] assigns for an index. *)
Definition answer (response : list Translation) (idx : Z) : string :=
  match find_translation response idx with
  | Some t => tr_text t
  | None => EmptyString
  end.

(** The translation of [e] is the answer of some call for its index. *)
Definition answered (client : nat -> Prompt -> list Translation)
    (e : SubtitleEntry.t) : Prop :=
  exists k p,
    SubtitleEntry.translation e = Some (answer (client k p) (SubtitleEntry.index e)).

(** A text with no blank line in it that does not end in a newline: no
    position of it is followed by two newlines once a newline is appended. *)
Fixpoint tight (t : string) : bool :=
  match t with
  | EmptyString => true
  | String c t' =>
      negb (Ascii.eqb nl c
            && match t' with
               | EmptyString => true
               | String c' _ => Ascii.eqb nl c'
               end)
      && tight t'
  end.

(** An entry as [from_srt] can return it: a non-negative index, times of
    the exact form, a non-empty text that is its own [strip()] and holds no
    blank line, no translation. *)
Definition parsed_form (e : SubtitleEntry.t) : Prop :=
  0 <= SubtitleEntry.index e
  /\ well_stamped e
  /\ SubtitleEntry.text e <> EmptyString
  /\ strip (SubtitleEntry.text e) = SubtitleEntry.text e
  /\ tight (SubtitleEntry.text e) = true.

(** The entry without its translation. *)
Definition untranslated (e : SubtitleEntry.t) : SubtitleEntry.t :=
  SubtitleEntry.Build (SubtitleEntry.index e) (SubtitleEntry.start_time e)
    (SubtitleEntry.end_time e) (SubtitleEntry.text e) None.

(** The document [from_srt] scans for a Timeline rendered in the original
    language: every block followed by an empty line. *)
Fixpoint srt_stream (l : list SubtitleEntry.t) : string :=
  match l with
  | [] => EmptyString
  | e :: l' => SubtitleEntry.to_srt_block e false false ++ NL ++ srt_stream l'
  end.

(** [str(z)] returns: [z] has at most [int_max_str_digits] digits. *)
Definition within_str_digits (z : Z) : Prop :=
  Z.abs z < 10 ^ Z.of_nat int_max_str_digits.

(** No run of decimal digits of [s] is longer than [limit], when [run]
    digits come just before [s]. *)
Fixpoint digit_runs_within (limit run : nat) (s : string) : bool :=
  match s with
  | EmptyString => true
  | String c s' =>
      if is_digit c
      then (S run <=? limit)%nat && digit_runs_within limit (S run) s'
      else digit_runs_within limit 0 s'
  end.

(** Twelve characters with [:] at positions 2 and 5 and [,] at position 8. *)
Definition stamp_shape (s : string) : bool :=
  match s with
  | String _ (String _ (String c1 (String _ (String _ (String c2
      (String _ (String _ (String c3 (String _ (String _ (String _
        EmptyString))))))))))) =>
      Ascii.eqb ":" c1 && Ascii.eqb ":" c2 && Ascii.eqb "," c3
  | _ => false
  end.

(** [map] with the position of each element, counted from [i]. *)
Fixpoint map_from {A B : Type} (f : nat -> A -> B) (i : nat) (l : list A) : list B :=
  match l with
  | [] => []
  | x :: l' => f i x :: map_from f (S i) l'
  end.

(** What the translation pass makes of the entry [e] at position [j] of the
    entries [subs]: position [j] lies in batch number [j / batch_size], which
    starts at position [(j / batch_size) * batch_size]; the entry gets the
    answer to the prompt of that batch. *)
Definition translated_entry (client : nat -> Prompt -> list Translation)
    (lang : string) (batch_size overlap : nat) (subs : list SubtitleEntry.t)
    (j : nat) (e : SubtitleEntry.t) : SubtitleEntry.t :=
  let k := (j / batch_size)%nat in
  assign_translation
    (client k (batch_prompt lang batch_size overlap subs (k * batch_size))) e.

(** ** Further samples *)

(** A client that answers every call with no translation. *)
Definition silent_client (_ : nat) (_ : Prompt) : list Translation := [].

(** A Timeline of two entries. *)
Definition short_timeline : Transcription.t :=
  Transcription.Build [sample_entry 1; sample_entry 2] 0 2 None.

(** * Properties *)

(** ** The examples of the specification *)

Example parse_one_block :
  Transcription.from_srt (srt_block "1" "00:00:01,000" "00:00:02,500" "Hello") 0
  = Transcription.Build
      [SubtitleEntry.Build 1 "00:00:01,000" "00:00:02,500" "Hello" None] 0 1 None
  /\ Timestamp._parse "00:00:01,000" = Ok 1000
  /\ Timestamp._parse "00:00:02,500" = Ok 2500.
Proof. repeat split; vm_compute; reflexivity. Qed.

Example parse_skips_noise :
  map SubtitleEntry.text
    (Transcription.subtitles
       (Transcription.from_srt
          ("WEBVTT" ++ NL ++ NL
           ++ srt_block "7" "00:00:01,000" "00:00:02,000" ("two" ++ NL ++ "lines")
           ++ "8" ++ NL ++ "0:00:03 --> 0:00:04" ++ NL ++ "bad stamp" ++ NL ++ NL
           ++ srt_block "9" "00:00:05,000" "00:00:06,000" " padded ") 0))
  = ["two" ++ NL ++ "lines"; "padded"].
Proof. vm_compute. reflexivity. Qed.

Example merge_second_chunk :
  Transcription.offset
    (Transcription.from_srt (srt_block "1" "00:00:00,000" "00:00:01,000" "next") 0)
    600000 42
  = Ok (Transcription.Build
          [SubtitleEntry.Build 43 "00:10:00,000" "00:10:01,000" "next" None] 0 1 None).
Proof. vm_compute. reflexivity. Qed.

Example format_negative :
  Timestamp.__str__ (Timestamp.Build (-1)) = "-1:59:59,999".
Proof. vm_compute. reflexivity. Qed.

(** ** Digits *)

Lemma is_digit_inv (c : ascii) :
  is_digit c = true -> exists d, 0 <= d <= 9 /\ c = digit_char d.
Proof.
  intros H. exists (digit_val c). revert H.
  destruct c as [[] [] [] [] [] [] [] []]; vm_compute; intros H;
    try discriminate H; (split; [split; discriminate | reflexivity]).
Qed.

Lemma digit_cases (d : Z) :
  0 <= d <= 9 ->
  d = 0 \/ d = 1 \/ d = 2 \/ d = 3 \/ d = 4 \/ d = 5 \/ d = 6 \/ d = 7 \/ d = 8 \/ d = 9.
Proof. lia. Qed.

Ltac each_digit H :=
  apply digit_cases in H;
  repeat (destruct H as [H | H]; [subst | ]); subst.

Lemma digit_val_char (d : Z) : 0 <= d <= 9 -> digit_val (digit_char d) = d.
Proof. intros H. each_digit H; reflexivity. Qed.

Lemma is_digit_char (d : Z) : 0 <= d <= 9 -> is_digit (digit_char d) = true.
Proof. intros H. each_digit H; reflexivity. Qed.

Lemma digit_not_colon (c : ascii) : is_digit c = true -> Ascii.eqb ":" c = false.
Proof.
  intros H. apply is_digit_inv in H as (d & Hd & ->). each_digit Hd; reflexivity.
Qed.

Lemma format2_digits (a b : Z) :
  0 <= a <= 9 -> 0 <= b <= 9 ->
  format_int 2 (10 * a + b) = String (digit_char a) (String (digit_char b) EmptyString).
Proof. intros Ha Hb. each_digit Ha; each_digit Hb; reflexivity. Qed.

Lemma format3_digits (a b c : Z) :
  0 <= a <= 9 -> 0 <= b <= 9 -> 0 <= c <= 9 ->
  format_int 3 (100 * a + 10 * b + c)
  = String (digit_char a) (String (digit_char b) (String (digit_char c) EmptyString)).
Proof.
  intros Ha Hb Hc. each_digit Ha; each_digit Hb; each_digit Hc; reflexivity.
Qed.

Lemma digits_aux_value (fuel : nat) :
  forall n acc, 0 <= n < 10 ^ Z.of_nat fuel ->
  exists k, 0 <= k /\
    forall q, int_digits q (digits_aux fuel n acc) = int_digits (q * 10 ^ k + n) acc.
Proof.
  induction fuel as [| fuel IH]; intros n acc Hn.
  - exists 0. split; [lia |]. intros q. cbn [digits_aux].
    change (10 ^ Z.of_nat 0) with 1 in Hn. f_equal. lia.
  - cbn [digits_aux]. rewrite Nat2Z.inj_succ, Z.pow_succ_r in Hn by lia.
    assert (Hd : 0 <= n mod 10 <= 9) by (pose proof (Z.mod_pos_bound n 10); lia).
    destruct (n <? 10) eqn:E.
    + apply Z.ltb_lt in E. exists 1. split; [lia |]. intros q.
      cbn [int_digits]. rewrite digit_val_char by exact Hd.
      rewrite Z.mod_small by lia. f_equal. lia.
    + apply Z.ltb_ge in E.
      destruct (IH (n / 10) (String (digit_char (n mod 10)) acc)) as (k & Hk & Hv).
      { Z.div_mod_to_equations. lia. }
      exists (Z.succ k). split; [lia |]. intros q.
      rewrite Hv. cbn [int_digits]. rewrite digit_val_char by exact Hd.
      rewrite Z.pow_succ_r by exact Hk. f_equal.
      pose proof (Z.div_mod n 10). lia.
Qed.

Lemma str_nonneg_value (n : Z) : 0 <= n -> int_digits 0 (str_nonneg n) = n.
Proof.
  intros Hn. unfold str_nonneg.
  destruct (digits_aux_value (S (Z.to_nat (Z.log2 n))) n EmptyString) as (k & _ & Hv).
  { split; [exact Hn |].
    rewrite Nat2Z.inj_succ, Z2Nat.id by apply Z.log2_nonneg.
    destruct (Z.eq_dec n 0) as [-> | Hnz]; [reflexivity |].
    apply Z.lt_le_trans with (2 ^ Z.succ (Z.log2 n)).
    - apply Z.log2_spec. lia.
    - apply Z.pow_le_mono_l. pose proof (Z.log2_nonneg n). lia. }
  rewrite Hv. cbn [int_digits]. lia.
Qed.

(** ** [Timestamp._parse] *)

Ltac decide_tests :=
  repeat match goal with
    | H : is_digit ?c = _ |- context [is_digit ?c] =>
        rewrite H; cbn [andb obind take_digits expect]
    | H : Ascii.eqb ?a ?c = _ |- context [Ascii.eqb ?a ?c] =>
        rewrite H; cbn [andb obind take_digits expect]
    | |- context [is_digit ?c] =>
        destruct (is_digit c) eqn:?; cbn [andb obind take_digits expect]
    | |- context [Ascii.eqb ?a ?c] =>
        destruct (Ascii.eqb a c) eqn:?; cbn [andb obind take_digits expect]
    end.

Lemma parse_spec (s : string) :
  Timestamp._parse s
  = if stamp_form (substring 0 12 s) then Ok (stamp_value s)
    else Raise (ValueError ("Invalid timestamp format: " ++ s)).
Proof.
  unfold Timestamp._parse, Timestamp.re_match, stamp_form.
  do 12 (destruct s as [| ? s];
         [ cbn [substring obind take_digits expect]; decide_tests; reflexivity | ]).
  unfold stamp_value, field.
  cbn [substring obind take_digits expect].
  replace (substring 0 0 s) with EmptyString by (destruct s; reflexivity).
  decide_tests; reflexivity.
Qed.

Lemma split_fields (h m s f : Z) :
  0 <= h -> 0 <= m <= 59 -> 0 <= s <= 59 -> 0 <= f <= 999 ->
  let v := (h * 3600 + m * 60 + s) * 1000 + f in
  v mod 1000 = f /\ (v / 1000) mod 60 = s
  /\ (v / (1000 * 60)) mod 60 = m /\ v / (1000 * 3600) = h.
Proof.
  intros Hh Hm Hs Hf v. subst v.
  change (1000 * 60) with 60000. change (1000 * 3600) with 3600000.
  repeat split; Z.div_mod_to_equations; lia.
Qed.

(** C6, as amended: for every string [s] of the exact form [DD:DD:DD,DDD]
    whose minutes field and seconds field are both at most 59, parsing [s]
    succeeds and formatting the parsed [Timestamp] gives [s] back. *)
Theorem C6_roundtrip_normalised (s : string) :
  stamp_form s = true -> field s 3 2 <= 59 -> field s 6 2 <= 59 ->
  exists ts, Timestamp.__init__ (Some s) None = Ok ts /\ Timestamp.__str__ ts = s.
Proof.
  intros Hform Hm Hs.
  do 12 (destruct s as [| ? s]; [discriminate Hform |]).
  destruct s; [| discriminate Hform].
  unfold Timestamp.__init__. rewrite parse_spec.
  cbn [substring]. rewrite Hform.
  eexists; split; [reflexivity |].
  cbn [stamp_form] in Hform.
  repeat match goal with
    | H : _ && _ = true |- _ => apply andb_prop in H; destruct H
    end.
  repeat match goal with
    | H : Ascii.eqb _ _ = true |- _ => apply Ascii.eqb_eq in H; subst
    end.
  repeat match goal with
    | H : is_digit _ = true |- _ =>
        let d := fresh "d" in let Hd := fresh "Hd" in
        apply is_digit_inv in H as (d & Hd & ->)
    end.
  unfold field in Hm, Hs. cbn [substring int_digits] in Hm, Hs.
  unfold Timestamp.__str__, stamp_value, field.
  cbn [substring int_digits Timestamp.milliseconds].
  rewrite !digit_val_char in * by assumption.
  destruct (split_fields (10 * (10 * 0 + d7) + d6) (10 * (10 * 0 + d5) + d4)
              (10 * (10 * 0 + d3) + d2) (10 * (10 * (10 * 0 + d1) + d0) + d))
    as (E1 & E2 & E3 & E4); try lia.
  cbv zeta in E1, E2, E3, E4. rewrite E1, E2, E3, E4.
  replace (10 * (10 * 0 + d7) + d6) with (10 * d7 + d6) by lia.
  replace (10 * (10 * 0 + d5) + d4) with (10 * d5 + d4) by lia.
  replace (10 * (10 * 0 + d3) + d2) with (10 * d3 + d2) by lia.
  replace (10 * (10 * (10 * 0 + d1) + d0) + d) with (100 * d1 + 10 * d0 + d) by lia.
  rewrite !format2_digits, format3_digits by assumption.
  reflexivity.
Qed.

Lemma C6_roundtrip_witness :
  stamp_form "12:34:56,789" = true
  /\ exists ts, Timestamp.__init__ (Some "12:34:56,789") None = Ok ts
                /\ Timestamp.__str__ ts = "12:34:56,789".
Proof.
  split; [reflexivity |].
  apply (C6_roundtrip_normalised "12:34:56,789");
    [reflexivity | vm_compute; discriminate | vm_compute; discriminate].
Defined.

(** C6 as stated fails: ["00:00:60,000"] has the form [DD:DD:DD,DDD], parses
    to 60000 ms, and formats as ["00:01:00,000"]. *)
Lemma C6_seconds_field_60 :
  stamp_form "00:00:60,000" = true
  /\ Timestamp.__init__ (Some "00:00:60,000") None = Ok (Timestamp.Build 60000)
  /\ Timestamp.__str__ (Timestamp.Build 60000) = "00:01:00,000"
  /\ Timestamp.__str__ (Timestamp.Build 60000) <> "00:00:60,000".
Proof.
  split; [reflexivity |]. split; [reflexivity |]. split; [reflexivity |].
  vm_compute. discriminate.
Qed.

Lemma parse_any_spec (decimal : N -> option Z) (time : AnyStr.str) :
  AnyStr._parse decimal time
  = if AnyStr.stamp_form decimal (firstn 12 time)
    then AnyStr.Returns (AnyStr.stamp_value decimal time)
    else AnyStr.RaisesValueError
           (AnyStr.code_points "Invalid timestamp format: " ++ time)%list.
Proof.
  unfold AnyStr._parse, AnyStr.re_match, AnyStr.stamp_form, AnyStr.stamp_value,
    AnyStr.is_decimal, AnyStr.digit_value.
  destruct time as [| h1 [| h2 [| c1 [| m1 [| m2 [| c2 [| s1 [| s2 [| c3
                   [| f1 [| f2 [| f3 rest]]]]]]]]]]]];
    cbn [firstn obind AnyStr.take_digits AnyStr.expect];
    repeat match goal with
      | H : decimal ?c = _ |- context [decimal ?c] =>
          rewrite H; cbn [andb obind AnyStr.take_digits AnyStr.expect]
      | H : N.eqb ?a ?c = _ |- context [N.eqb ?a ?c] =>
          rewrite H; cbn [andb obind AnyStr.take_digits AnyStr.expect]
      | |- context [decimal ?c] =>
          destruct (decimal c) eqn:?;
          cbn [andb obind AnyStr.take_digits AnyStr.expect]
      | |- context [N.eqb ?a ?c] =>
          destruct (N.eqb a c) eqn:?;
          cbn [andb obind AnyStr.take_digits AnyStr.expect]
      end;
    try reflexivity.
  cbn [AnyStr.int_of fold_left]. f_equal. lia.
Qed.

(** The two embeddings of [_parse] agree on a [str] of characters below
    256. *)
Lemma latin1_decimal_digit (c : ascii) :
  AnyStr.latin1_decimal (N.of_nat (nat_of_ascii c))
  = if is_digit c then Some (digit_val c) else None.
Proof. destruct c as [[] [] [] [] [] [] [] []]; reflexivity. Qed.

Lemma code_point_eqb (a c : ascii) :
  (N.of_nat (nat_of_ascii a) =? N.of_nat (nat_of_ascii c))%N = Ascii.eqb a c.
Proof.
  destruct (Ascii.eqb_spec a c) as [-> | Hne]; [apply N.eqb_refl |].
  apply N.eqb_neq. intros H. apply Hne. apply Nat2N.inj in H.
  rewrite <- (ascii_nat_embedding a), <- (ascii_nat_embedding c), H. reflexivity.
Qed.

Ltac both_tests :=
  repeat (cbn [AnyStr.code_points AnyStr.take_digits AnyStr.expect
               take_digits expect obind andb];
          rewrite ?latin1_decimal_digit, ?code_point_eqb;
          match goal with
          | H : is_digit ?c = _ |- context [is_digit ?c] => rewrite H
          | H : Ascii.eqb ?a ?c = _ |- context [Ascii.eqb ?a ?c] => rewrite H
          | |- context [is_digit ?c] => destruct (is_digit c) eqn:?
          | |- context [Ascii.eqb ?a ?c] => destruct (Ascii.eqb a c) eqn:?
          end).

Lemma parse_code_points (s : string) :
  AnyStr._parse AnyStr.latin1_decimal (AnyStr.code_points s)
  = match Timestamp._parse s with
    | Ok v => AnyStr.Returns v
    | Raise (ValueError msg) => AnyStr.RaisesValueError (AnyStr.code_points msg)
    end.
Proof.
  unfold AnyStr._parse, AnyStr.re_match, Timestamp._parse, Timestamp.re_match.
  change AnyStr.colon with (N.of_nat (nat_of_ascii ":")).
  change AnyStr.comma with (N.of_nat (nat_of_ascii ",")).
  do 12 (destruct s as [| ? s]; [ both_tests; reflexivity | ]).
  both_tests; reflexivity.
Qed.

(** A string of fullwidth digits, [01:02:03,004] written with the characters
    U+FF10..U+FF19, is parsed like the same time written with ['0'..'9']. *)
Example parse_fullwidth_digits :
  AnyStr._parse AnyStr.with_fullwidth
    [65296; 65297; 58; 65296; 65298; 58; 65296; 65299; 44; 65296; 65296; 65300]%N
  = AnyStr.Returns 3723004
  /\ Timestamp._parse "01:02:03,004" = Ok 3723004.
Proof. split; reflexivity. Qed.

(** C7, as amended: on a [str] of any characters, [Timestamp._parse] returns
    exactly when the first twelve characters of the string have the form
    [DD:DD:DD,DDD], [D] being any decimal digit (what [\d] matches); what
    follows the twelfth character plays no part.  It then returns the
    milliseconds the twelve characters stand for; on every other string it
    raises [ValueError] with the text [Invalid timestamp format: ] followed by
    the string. *)
Theorem C7_parse_prefix (decimal : N -> option Z) (time : AnyStr.str) :
  AnyStr._parse decimal time
  = if AnyStr.stamp_form decimal (firstn 12 time)
    then AnyStr.Returns (AnyStr.stamp_value decimal time)
    else AnyStr.RaisesValueError
           (AnyStr.code_points "Invalid timestamp format: " ++ time)%list.
Proof. apply parse_any_spec. Qed.

(** C7 as stated fails: ["00:00:01,000x"] does not have the exact form, and
    parsing it succeeds. *)
Lemma C7_trailing_text_accepted :
  stamp_form "00:00:01,000x" = false
  /\ Timestamp._parse "00:00:01,000x" = Ok 1000.
Proof. split; reflexivity. Qed.

(** ** Rendering a block *)

(** C9, as amended: in every mode the block is
    ["{index}\n{start} --> {end}\n{content}\n"]; the content is the text in
    original mode, the translation if it is present and not empty, else the
    text, in translated mode, and the text followed by the translation on
    the next line if the translation is present and not empty, else the text
    alone, in bilingual mode. *)
Theorem C9_block_content (m : mode) (e : SubtitleEntry.t) :
  render_block m e = block_of e (code_content m e).
Proof.
  destruct e as [i st en tx [[| c tr] |]]; destruct m; reflexivity.
Qed.

(** C9 as stated fails in translated mode: an entry whose translation is
    the empty string has a translation present, yet its block carries the
    text and not that translation. *)
Lemma C9_empty_translation_shows_text :
  SubtitleEntry.translation unmatched_entry = Some EmptyString
  /\ spec_content Translated unmatched_entry = EmptyString
  /\ render_block Translated unmatched_entry = block_of unmatched_entry "Hello"
  /\ render_block Translated unmatched_entry
     <> block_of unmatched_entry (spec_content Translated unmatched_entry).
Proof.
  split; [reflexivity |]. split; [reflexivity |]. split; [reflexivity |].
  vm_compute. discriminate.
Qed.

(** ** Hours beyond 99 *)

Lemma digits_aux_all_digits (fuel : nat) :
  forall n acc, 0 <= n -> all_digits acc = true ->
  all_digits (digits_aux fuel n acc) = true.
Proof.
  induction fuel as [| fuel IH]; intros n acc Hn Hacc; [exact Hacc |].
  assert (Hstep : all_digits (String (digit_char (n mod 10)) acc) = true).
  { cbn [all_digits]. rewrite is_digit_char, Hacc; [reflexivity |].
    pose proof (Z.mod_pos_bound n 10). lia. }
  cbn [digits_aux]. destruct (n <? 10); [exact Hstep |].
  apply IH; [apply Z.div_pos; lia | exact Hstep].
Qed.

Lemma digits_aux_length (fuel : nat) :
  forall n acc, (String.length acc <= String.length (digits_aux fuel n acc))%nat.
Proof.
  induction fuel as [| fuel IH]; intros n acc; cbn [digits_aux]; [lia |].
  destruct (n <? 10); [cbn [String.length]; lia |].
  etransitivity; [| apply IH]. cbn [String.length]. lia.
Qed.

Lemma str_nonneg_three_digits (n : Z) :
  100 <= n -> (3 <= String.length (str_nonneg n))%nat.
Proof.
  intros Hn. unfold str_nonneg.
  assert (Hlog : 6 <= Z.log2 n).
  { change 6 with (Z.log2 100). apply Z.log2_le_mono. exact Hn. }
  destruct (Z.to_nat (Z.log2 n)) as [| [| f]] eqn:E; try lia.
  cbn [digits_aux].
  destruct (n <? 10) eqn:E1; [apply Z.ltb_lt in E1; lia |].
  destruct (n / 10 <? 10) eqn:E2.
  { apply Z.ltb_lt in E2. Z.div_mod_to_equations. lia. }
  destruct (n / 10 / 10 <? 10).
  - cbn [String.length]. lia.
  - etransitivity; [| apply digits_aux_length]. cbn [String.length]. lia.
Qed.

Lemma str_nonneg_all_digits (n : Z) : 0 <= n -> all_digits (str_nonneg n) = true.
Proof. intros Hn. apply digits_aux_all_digits; [exact Hn | reflexivity]. Qed.

Lemma parse_long_hours (hr rest : string) :
  all_digits hr = true -> (3 <= String.length hr)%nat ->
  Timestamp._parse (hr ++ rest)
  = Raise (ValueError ("Invalid timestamp format: " ++ hr ++ rest)).
Proof.
  intros Hd Hl.
  destruct hr as [| c1 [| c2 [| c3 hr]]]; cbn [String.length] in Hl; try lia.
  cbn [all_digits] in Hd.
  apply andb_prop in Hd as [H1 Hd]. apply andb_prop in Hd as [H2 Hd].
  apply andb_prop in Hd as [H3 _].
  unfold Timestamp._parse, Timestamp.re_match.
  cbn [append take_digits expect obind].
  rewrite H1, H2. cbn [obind expect]. rewrite (digit_not_colon _ H3). reflexivity.
Qed.

Lemma str_long_hours (ms : Z) :
  360000000 <= ms ->
  exists hr rest,
    Timestamp.__str__ (Timestamp.Build ms) = hr ++ ":" ++ rest
    /\ all_digits hr = true /\ (3 <= String.length hr)%nat.
Proof.
  intros Hms. unfold Timestamp.__str__. cbn [Timestamp.milliseconds].
  assert (Hhr : 100 <= ms / (1000 * 3600)).
  { change (1000 * 3600) with 3600000. Z.div_mod_to_equations. lia. }
  exists (str_nonneg (ms / (1000 * 3600))). eexists.
  pose proof (str_nonneg_three_digits _ Hhr) as Hlen.
  split; [| split; [apply str_nonneg_all_digits; lia | exact Hlen]].
  unfold format_int at 1.
  destruct (ms / (1000 * 3600) <? 0) eqn:E; [apply Z.ltb_lt in E; lia |].
  unfold zfill.
  replace (2 - String.length (str_nonneg (ms / (1000 * 3600))))%nat with 0%nat by lia.
  reflexivity.
Qed.

Lemma offset_raises (e : SubtitleEntry.t) (offset_ms : Z) (hr rest : string) :
  all_digits hr = true -> (3 <= String.length hr)%nat ->
  SubtitleEntry.start_time e = hr ++ rest \/ SubtitleEntry.end_time e = hr ++ rest ->
  exists msg, SubtitleEntry.offset e offset_ms = Raise (ValueError msg).
Proof.
  intros Hd Hl [H | H]; unfold SubtitleEntry.offset, Timestamp.__init__.
  - rewrite H, parse_long_hours by assumption. eexists. reflexivity.
  - destruct (Timestamp._parse (SubtitleEntry.start_time e)) as [v | [msg]].
    + cbn [bind]. rewrite H, parse_long_hours by assumption. eexists. reflexivity.
    + eexists. reflexivity.
Qed.

Lemma offset_entries_raises (subs : list SubtitleEntry.t) (e : SubtitleEntry.t)
    (offset_ms offset_index : Z) :
  In e subs ->
  (exists msg, SubtitleEntry.offset e offset_ms = Raise (ValueError msg)) ->
  exists msg,
    Transcription.offset_entries subs offset_ms offset_index = Raise (ValueError msg).
Proof.
  intros Hin [msg He].
  induction subs as [| x subs IH]; [contradiction |].
  cbn [Transcription.offset_entries].
  destruct Hin as [-> | Hin].
  - rewrite He. eexists. reflexivity.
  - destruct (SubtitleEntry.offset x offset_ms) as [x' | [m]]; cbn [bind].
    + destruct (IH Hin) as [m ->]. eexists. reflexivity.
    + eexists. reflexivity.
Qed.

Lemma offset_two_digit_form (e : SubtitleEntry.t) (offset_ms : Z) :
  stamp_form (SubtitleEntry.start_time e) = true ->
  stamp_form (SubtitleEntry.end_time e) = true ->
  exists e', SubtitleEntry.offset e offset_ms = Ok e'.
Proof.
  intros Hs He. unfold SubtitleEntry.offset, Timestamp.__init__.
  rewrite !parse_spec.
  assert (P : forall s, stamp_form s = true -> stamp_form (substring 0 12 s) = true).
  { intros s H. do 12 (destruct s as [| ? s]; [discriminate H |]).
    destruct s; [exact H | discriminate H]. }
  rewrite (P _ Hs), (P _ He). eexists. reflexivity.
Qed.

Lemma offset_entries_well_stamped (subs : list SubtitleEntry.t) (a b : Z) :
  Forall well_stamped subs ->
  exists subs', Transcription.offset_entries subs a b = Ok subs'.
Proof.
  induction 1 as [| e subs [Hs He] Hl [rest IH]]; cbn [Transcription.offset_entries].
  - eexists. reflexivity.
  - destruct (offset_two_digit_form e a Hs He) as [e' ->]. rewrite IH.
    eexists. reflexivity.
Qed.

(** C10, as amended: a time of at least 100 hours (and of at most 4300
    digits, so that it can be formatted) formats with an hour field of three
    or more digits; offsetting an entry whose start or end is such a
    formatted time raises [ValueError] whatever the offset, and so does
    offsetting a Timeline that holds such an entry.  An entry whose start and
    end have the two-digit form [DD:DD:DD,DDD] is offset without error by any
    amount of at most 4300 digits, whatever time results, and so is a
    Timeline all of whose entries have that form. *)
Theorem C10_long_hours (ms : Z) (e : SubtitleEntry.t) (tr : Transcription.t)
    (offset_ms offset_index : Z) :
  360000000 <= ms ->
  within_str_digits ms ->
  SubtitleEntry.start_time e = Timestamp.__str__ (Timestamp.Build ms)
  \/ SubtitleEntry.end_time e = Timestamp.__str__ (Timestamp.Build ms) ->
  In e (Transcription.subtitles tr) ->
  (exists hr rest,
      Timestamp.__str__ (Timestamp.Build ms) = hr ++ ":" ++ rest
      /\ all_digits hr = true /\ (3 <= String.length hr)%nat)
  /\ (exists msg, SubtitleEntry.offset e offset_ms = Raise (ValueError msg))
  /\ (exists msg,
        Transcription.offset tr offset_ms offset_index = Raise (ValueError msg))
  /\ (forall fresh by_ms,
        within_str_digits by_ms ->
        stamp_form (SubtitleEntry.start_time fresh) = true ->
        stamp_form (SubtitleEntry.end_time fresh) = true ->
        exists shifted, SubtitleEntry.offset fresh by_ms = Ok shifted)
  /\ (forall fresh by_ms by_index,
        within_str_digits by_ms ->
        Forall well_stamped (Transcription.subtitles fresh) ->
        exists shifted, Transcription.offset fresh by_ms by_index = Ok shifted).
Proof.
  intros Hms _ He Hin.
  destruct (str_long_hours ms Hms) as (hr & rest & Hstr & Hd & Hl).
  assert (Hraise : exists msg, SubtitleEntry.offset e offset_ms = Raise (ValueError msg)).
  { apply (offset_raises e offset_ms hr (":" ++ rest) Hd Hl).
    rewrite <- Hstr. exact He. }
  split; [exists hr, rest; auto |]. split; [exact Hraise |]. split; [| split].
  - unfold Transcription.offset.
    destruct (offset_entries_raises _ e offset_ms offset_index Hin Hraise) as [msg ->].
    exists msg. reflexivity.
  - intros fresh by_ms _. apply offset_two_digit_form.
  - intros fresh by_ms by_index _ Hall. unfold Transcription.offset.
    destruct (offset_entries_well_stamped _ by_ms by_index Hall) as [subs ->].
    eexists. reflexivity.
Qed.

Lemma C10_long_hours_witness :
  360000000 <= 360000000
  /\ (exists msg, SubtitleEntry.offset late_entry 0 = Raise (ValueError msg))
  /\ (exists msg,
        Transcription.offset (Transcription.Build [late_entry] 0 1 None) 0 0
        = Raise (ValueError msg))
  /\ (exists shifted, SubtitleEntry.offset (sample_entry 1) 360000000 = Ok shifted).
Proof.
  destruct (C10_long_hours 360000000 late_entry
              (Transcription.Build [late_entry] 0 1 None) 0 0)
    as (_ & H1 & H2 & H3 & _);
    [lia | vm_compute; reflexivity | left; vm_compute; reflexivity
     | left; reflexivity |].
  split; [lia |]. split; [exact H1 |]. split; [exact H2 |].
  apply H3; vm_compute; reflexivity.
Defined.

(** C10 as stated fails in its last part: the third transcript is shifted by
    100 hours when it is merged, and the merge returns a Timeline whose last
    entry starts at ["100:00:01,000"]. *)
Lemma C10_merge_past_100_hours :
  exists tr,
    process_transcription hundred_hours_dir = Ok tr
    /\ map SubtitleEntry.start_time (Transcription.subtitles tr)
       = ["00:00:01,000"; "00:00:01,000"; "100:00:01,000"].
Proof. eexists. split; vm_compute; reflexivity. Qed.

(** ** The chunker *)

Lemma closest_in (ideal_end : Z) (candidates : list Z) :
  forall best,
    closest ideal_end best candidates = best
    \/ In (closest ideal_end best candidates) candidates.
Proof.
  induction candidates as [| s rest IH]; intros best; cbn [closest]; [now left |].
  destruct (Z.abs (s - ideal_end) <? Z.abs (best - ideal_end)).
  - destruct (IH s) as [-> | H]; right; [now left | now right].
  - destruct (IH best) as [-> | H]; [now left | right; now right].
Qed.

Section ChunkerFacts.

Variables (D M : Z) (mids : list Z).
Hypothesis M_pos : 0 < M.

Lemma cut_point_window (start : Z) :
  start + M - M / 5 <= cut_point_at M mids start <= start + M + M / 5.
Proof.
  unfold cut_point_at, flexibility.
  assert (Hf : 0 <= M / 5) by (apply Z.div_pos; lia).
  set (inside := fun s => (start + M - M / 5 <=? s) && (s <=? start + M + M / 5)).
  destruct (filter inside mids) as [| s rest] eqn:E; [lia |].
  assert (Hin : In (closest (start + M) s rest) (filter inside mids)).
  { rewrite E. destruct (closest_in (start + M) rest s) as [-> | H];
      [now left | now right]. }
  apply filter_In in Hin as [_ Hin]. unfold inside in Hin.
  apply andb_prop in Hin as [H1 H2].
  apply Z.leb_le in H1, H2. lia.
Qed.

Lemma cut_point_advances (start : Z) : start < cut_point_at M mids start.
Proof.
  pose proof (cut_point_window start).
  assert (M / 5 < M) by (Z.div_mod_to_equations; lia). lia.
Qed.

Lemma chunk_loop_tiles (fuel : nat) :
  forall start idx,
    0 <= start -> Z.max 0 (D - start) < Z.of_nat fuel ->
    exists chunks,
      chunk_loop D M mids fuel start idx = Some chunks
      /\ (if start <? D then tiling start D chunks = true else chunks = [])
      /\ Forall (fun c => chunk_length c <= M + M / 5) chunks.
Proof.
  assert (Hflex : 0 <= M / 5) by (apply Z.div_pos; lia).
  induction fuel as [| fuel IH]; intros start idx Hs Hfuel; [lia |].
  cbn [chunk_loop].
  destruct (start <? D) eqn:Elt; [| exists []; auto].
  apply Z.ltb_lt in Elt.
  destruct (start + M >=? D) eqn:Eend.
  - rewrite Z.geb_le in Eend.
    eexists. split; [reflexivity |]. split.
    + cbn [tiling chunk_start chunk_end]. rewrite !Z.eqb_refl.
      apply Z.ltb_lt in Elt. rewrite Elt. reflexivity.
    + repeat constructor. unfold chunk_length. cbn [chunk_start chunk_end]. lia.
  - assert (Hlt : start + M < D).
    { destruct (Z.geb_spec (start + M) D); [discriminate | lia]. }
    pose proof (cut_point_window start) as Hw.
    pose proof (cut_point_advances start) as Ha.
    destruct (IH (cut_point_at M mids start) (idx + 1)) as (cs & -> & Ht & Hl);
      [lia | lia |].
    eexists. split; [reflexivity |]. split.
    + cbn [tiling chunk_start chunk_end]. rewrite Z.eqb_refl.
      assert (E1 : (start <? Z.min (cut_point_at M mids start) D) = true)
        by (apply Z.ltb_lt; lia).
      rewrite E1. cbn [andb].
      destruct (cut_point_at M mids start <? D) eqn:Ecut.
      * apply Z.ltb_lt in Ecut. rewrite Z.min_l by lia. exact Ht.
      * apply Z.ltb_ge in Ecut. rewrite Z.min_r by lia. subst cs. apply Z.eqb_refl.
    + constructor; [| exact Hl].
      unfold chunk_length. cbn [chunk_start chunk_end]. lia.
Qed.

End ChunkerFacts.




(** ** The translation pass *)

Lemma slice_map {A B : Type} (f : A -> B) (l : list A) (a b : nat) :
  map f (slice l a b) = slice (map f l) a b.
Proof. unfold slice. rewrite skipn_map, firstn_map. reflexivity. Qed.


Lemma skipn_app_exact {A : Type} (pre rest : list A) :
  skipn (List.length pre) (pre ++ rest)%list = rest.
Proof. induction pre as [| x pre IH]; [reflexivity | exact IH]. Qed.

Lemma firstn_app_exact {A : Type} (pre rest : list A) :
  firstn (List.length pre) (pre ++ rest)%list = pre.
Proof.
  induction pre as [| x pre IH]; [reflexivity |].
  cbn [List.length firstn app]. rewrite IH. reflexivity.
Qed.

Lemma slice_app_mid {A : Type} (pre mid post : list A) (n : nat) :
  List.length mid = n \/ (post = [] /\ (List.length mid <= n)%nat) ->
  slice (pre ++ mid ++ post)%list (List.length pre) (List.length pre + n) = mid
  /\ skipn (List.length pre + n) (pre ++ mid ++ post)%list = post
  /\ firstn (List.length pre) (pre ++ mid ++ post)%list = pre.
Proof.
  intros H. unfold slice.
  replace (List.length pre + n - List.length pre)%nat with n by lia.
  replace (List.length pre + n)%nat with (n + List.length pre)%nat by lia.
  rewrite <- skipn_skipn, skipn_app_exact, firstn_app_exact.
  split; [| split; [| reflexivity]].
  - destruct H as [<- | [-> Hle]].
    + apply firstn_app_exact.
    + rewrite app_nil_r. apply firstn_all2. exact Hle.
  - destruct H as [<- | [-> Hle]].
    + apply skipn_app_exact.
    + rewrite app_nil_r. apply skipn_all2. exact Hle.
Qed.

Lemma id_text_assign (response : list Translation) (l : list SubtitleEntry.t) :
  map id_text (map (assign_translation response) l) = map id_text l.
Proof. rewrite map_map. apply map_ext. intros e. reflexivity. Qed.



Section TranslateFacts.

Variable client : nat -> Prompt -> list Translation.
Variable lang : string.
Variables batch_size overlap : nat.

Lemma batch_prompt_ids (s1 s2 : list SubtitleEntry.t) (i : nat) :
  map id_text s1 = map id_text s2 ->
  batch_prompt lang batch_size overlap s1 i = batch_prompt lang batch_size overlap s2 i.
Proof.
  intros H. unfold batch_prompt.
  assert (Hlen : List.length s1 = List.length s2).
  { rewrite <- (length_map id_text s1), H. apply length_map. }
  rewrite Hlen.
  destruct (0 <? i)%nat, (i + batch_size <? List.length s2)%nat;
    rewrite ?slice_map, H; reflexivity.
Qed.


Lemma translate_batch_app (k : nat) (pre mid post : list SubtitleEntry.t) :
  List.length mid = batch_size \/ (post = [] /\ (List.length mid <= batch_size)%nat) ->
  translate_batch client lang batch_size overlap k (pre ++ mid ++ post)%list
    (List.length pre)
  = (pre ++ map (assign_translation
                   (client k (batch_prompt lang batch_size overlap
                                (pre ++ mid ++ post) (List.length pre)))) mid
         ++ post)%list.
Proof.
  intros H. unfold translate_batch.
  destruct (slice_app_mid pre mid post batch_size H) as (-> & -> & ->).
  reflexivity.
Qed.

End TranslateFacts.

Section ThreeBatches.

Variable client : nat -> Prompt -> list Translation.
Variable lang : string.
Variables A B C : list SubtitleEntry.t.
Hypothesis HA : List.length A = 30%nat.
Hypothesis HB : List.length B = 30%nat.
Hypothesis HC : (List.length C <= 30)%nat.


End ThreeBatches.



(** ** The assembler *)

(** Whatever was merged before, the watermark after merging a file is the
    number at the end of its name and the last index of its own transcript
    as parsed, before any offset. *)
Lemma merge_file_watermark (combined tr : Transcription.t) (name content : string) :
  merge_file combined (name, content) = Ok tr ->
  py_int (last_piece "_" (stem name)) = Ok (Transcription.end_time tr)
  /\ Transcription.end_index tr
     = Transcription.end_index (Transcription.from_srt content (Transcription.end_time tr)).
Proof.
  unfold merge_file.
  destruct (py_int (last_piece "_" (stem name))) as [t | e]; cbn [bind];
    [| discriminate].
  destruct (Transcription.subtitles combined) as [| x rest].
  - cbn [bind]. intros [= <-]. split; reflexivity.
  - unfold Transcription.offset.
    destruct (Transcription.offset_entries _ _ _) as [subs | e]; cbn [bind];
      [| discriminate].
    intros [= <-]. split; reflexivity.
Qed.

(** C1 fails on the code: a 1700000 ms audio gives three chunks; with the
    well-formed cues 1 and 2 in every transcript, the merged indices are
    1, 2, 3, 4, 3, 4 instead of 1..6, and [end_index] is 2 after every merge
    instead of 2, 4, 6. *)
Theorem C1_indices_repeat_from_third_chunk :
  exists chunks tr,
    chunk_audio 1700000 default_max_duration_ms [] = Some chunks
    /\ List.length chunks = 3%nat
    /\ Forall (fun c =>
                map SubtitleEntry.index
                  (Transcription.subtitles (Transcription.from_srt (two_cues c) 0))
                = [1; 2]) chunks
    /\ transcribe_job two_cues (upload chunks) = Ok tr
    /\ map SubtitleEntry.index (Transcription.subtitles tr) = [1; 2; 3; 4; 3; 4]
    /\ map watermark
         (merge_trace (Transcription.Build [] 0 0 None)
            (srt_files (create_transcription two_cues (upload chunks))))
       = [Some (0, 2); Some (600000, 2); Some (1200000, 2)].
Proof.
  eexists. eexists.
  split; [vm_compute; reflexivity |].
  split; [reflexivity |].
  split; [repeat constructor |].
  split; [vm_compute; reflexivity |].
  split; vm_compute; reflexivity.
Qed.

(** C2 fails on the code: in the same job every cue starts within its
    chunk's duration, and the merged start times are 1000, 300000, 1000,
    300000, 601000, 900000 ms: the third entry starts before the second. *)
Theorem C2_start_times_go_back :
  exists chunks tr,
    chunk_audio 1700000 default_max_duration_ms [] = Some chunks
    /\ Forall (fun c => 300000 < chunk_length c) chunks
    /\ transcribe_job two_cues (upload chunks) = Ok tr
    /\ map start_ms (Transcription.subtitles tr)
       = [Ok 1000; Ok 300000; Ok 1000; Ok 300000; Ok 601000; Ok 900000].
Proof.
  eexists. eexists.
  split; [vm_compute; reflexivity |].
  split; [repeat constructor |].
  split; vm_compute; reflexivity.
Qed.

(** C3 fails on the code: the chunks of the same job end at 600000, 1200000
    and 1700000 ms, and [end_time] after the three merges is 0, 600000 and
    1200000: the start of the chunk just merged, not its end. *)
Theorem C3_end_time_is_chunk_start :
  exists chunks,
    chunk_audio 1700000 default_max_duration_ms [] = Some chunks
    /\ map chunk_start chunks = [0; 600000; 1200000]
    /\ map chunk_end chunks = [600000; 1200000; 1700000]
    /\ map watermark
         (merge_trace (Transcription.Build [] 0 0 None)
            (srt_files (create_transcription two_cues (upload chunks))))
       = [Some (0, 2); Some (600000, 2); Some (1200000, 2)].
Proof.
  eexists.
  split; [vm_compute; reflexivity |].
  split; [reflexivity |].
  split; [reflexivity | vm_compute; reflexivity].
Qed.

(** C4 fails on the code: a 6500000 ms audio gives the chunks 0..10, and
    their transcripts are read and merged in the order 0, 10, 1, 2, ..., 9 of
    their file names. *)
Theorem C4_eleventh_chunk_merged_second :
  exists chunks tr,
    chunk_audio 6500000 default_max_duration_ms [] = Some chunks
    /\ map chunk_idx chunks = [0; 1; 2; 3; 4; 5; 6; 7; 8; 9; 10]
    /\ map fst (srt_files (create_transcription own_number (upload chunks)))
       = ["chunk_0_0.srt"; "chunk_10_6000000.srt"; "chunk_1_600000.srt";
          "chunk_2_1200000.srt"; "chunk_3_1800000.srt"; "chunk_4_2400000.srt";
          "chunk_5_3000000.srt"; "chunk_6_3600000.srt"; "chunk_7_4200000.srt";
          "chunk_8_4800000.srt"; "chunk_9_5400000.srt"]
    /\ transcribe_job own_number (upload chunks) = Ok tr
    /\ map SubtitleEntry.text (Transcription.subtitles tr)
       = ["0"; "10"; "1"; "2"; "3"; "4"; "5"; "6"; "7"; "8"; "9"].
Proof.
  eexists. eexists.
  split; [vm_compute; reflexivity |].
  split; [reflexivity |].
  split; [vm_compute; reflexivity |].
  split; vm_compute; reflexivity.
Qed.

(** * Further properties *)

(** ** Formatting and parsing a time *)

Lemma format2_small (n : Z) :
  0 <= n <= 99 ->
  format_int 2 n
  = String (digit_char (n / 10)) (String (digit_char (n mod 10)) EmptyString).
Proof.
  intros Hn.
  replace n with (10 * (n / 10) + n mod 10) at 1 by (Z.div_mod_to_equations; lia).
  apply format2_digits; Z.div_mod_to_equations; lia.
Qed.

Lemma format3_small (n : Z) :
  0 <= n <= 999 ->
  format_int 3 n
  = String (digit_char (n / 100))
      (String (digit_char ((n / 10) mod 10))
         (String (digit_char (n mod 10)) EmptyString)).
Proof.
  intros Hn.
  replace n with (100 * (n / 100) + 10 * ((n / 10) mod 10) + n mod 10) at 1
    by (Z.div_mod_to_equations; lia).
  apply format3_digits; Z.div_mod_to_equations; lia.
Qed.

Lemma str_two_digit_hours (ms : Z) :
  0 <= ms < 360000000 ->
  let hr := ms / (1000 * 3600) in
  let mi := (ms / (1000 * 60)) mod 60 in
  let s := (ms / 1000) mod 60 in
  let f := ms mod 1000 in
  Timestamp.__str__ (Timestamp.Build ms)
  = String (digit_char (hr / 10)) (String (digit_char (hr mod 10)) (String ":"
      (String (digit_char (mi / 10)) (String (digit_char (mi mod 10)) (String ":"
        (String (digit_char (s / 10)) (String (digit_char (s mod 10)) (String ","
          (String (digit_char (f / 100)) (String (digit_char ((f / 10) mod 10))
            (String (digit_char (f mod 10)) EmptyString))))))))))).
Proof.
  intros Hms hr mi s f. unfold Timestamp.__str__. cbn [Timestamp.milliseconds].
  fold hr mi s f.
  rewrite (format2_small hr), (format2_small mi), (format2_small s), (format3_small f);
    [reflexivity | | | |]; subst hr mi s f;
    change (1000 * 3600) with 3600000; change (1000 * 60) with 60000;
    Z.div_mod_to_equations; lia.
Qed.

Lemma parse_str_small (ms : Z) :
  0 <= ms < 360000000 ->
  stamp_form (Timestamp.__str__ (Timestamp.Build ms)) = true
  /\ Timestamp._parse (Timestamp.__str__ (Timestamp.Build ms)) = Ok ms.
Proof.
  intros Hms. rewrite parse_spec, (str_two_digit_hours ms Hms).
  cbv zeta.
  set (hr := ms / (1000 * 3600)). set (mi := (ms / (1000 * 60)) mod 60).
  set (s := (ms / 1000) mod 60). set (f := ms mod 1000).
  assert (Hhr : 0 <= hr <= 99)
    by (subst hr; change (1000 * 3600) with 3600000; Z.div_mod_to_equations; lia).
  assert (Hmi : 0 <= mi <= 59) by (subst mi; Z.div_mod_to_equations; lia).
  assert (Hs : 0 <= s <= 59) by (subst s; Z.div_mod_to_equations; lia).
  assert (Hf : 0 <= f <= 999) by (subst f; Z.div_mod_to_equations; lia).
  assert (B1 : 0 <= hr / 10 <= 9) by (Z.div_mod_to_equations; lia).
  assert (B2 : 0 <= hr mod 10 <= 9) by (Z.div_mod_to_equations; lia).
  assert (B3 : 0 <= mi / 10 <= 9) by (Z.div_mod_to_equations; lia).
  assert (B4 : 0 <= mi mod 10 <= 9) by (Z.div_mod_to_equations; lia).
  assert (B5 : 0 <= s / 10 <= 9) by (Z.div_mod_to_equations; lia).
  assert (B6 : 0 <= s mod 10 <= 9) by (Z.div_mod_to_equations; lia).
  assert (B7 : 0 <= f / 100 <= 9) by (Z.div_mod_to_equations; lia).
  assert (B8 : 0 <= (f / 10) mod 10 <= 9) by (Z.div_mod_to_equations; lia).
  assert (B9 : 0 <= f mod 10 <= 9) by (Z.div_mod_to_equations; lia).
  assert (Form : stamp_form
    (String (digit_char (hr / 10)) (String (digit_char (hr mod 10)) (String ":"
      (String (digit_char (mi / 10)) (String (digit_char (mi mod 10)) (String ":"
        (String (digit_char (s / 10)) (String (digit_char (s mod 10)) (String ","
          (String (digit_char (f / 100)) (String (digit_char ((f / 10) mod 10))
            (String (digit_char (f mod 10)) EmptyString)))))))))))) = true).
  { cbn [stamp_form].
    rewrite !is_digit_char by assumption.
    reflexivity. }
  split; [exact Form |].
  cbn [substring]. rewrite Form.
  unfold stamp_value, field. cbn [substring int_digits].
  rewrite !digit_val_char by assumption.
  f_equal.
  replace (10 * (10 * 0 + hr / 10) + hr mod 10) with hr
    by (Z.div_mod_to_equations; lia).
  replace (10 * (10 * 0 + mi / 10) + mi mod 10) with mi
    by (Z.div_mod_to_equations; lia).
  replace (10 * (10 * 0 + s / 10) + s mod 10) with s
    by (Z.div_mod_to_equations; lia).
  replace (10 * (10 * (10 * 0 + f / 100) + (f / 10) mod 10) + f mod 10) with f
    by (Z.div_mod_to_equations; lia).
  subst hr mi s f. change (1000 * 3600) with 3600000. change (1000 * 60) with 60000.
  Z.div_mod_to_equations. lia.
Qed.

(** X1: a time of less than 100 hours is formatted in the exact form
    [DD:DD:DD,DDD], and parsing the formatted string gives the time back. *)
Theorem timestamp_roundtrip (ms : Z) :
  0 <= ms < 360000000 ->
  stamp_form (Timestamp.__str__ (Timestamp.Build ms)) = true
  /\ Timestamp._parse (Timestamp.__str__ (Timestamp.Build ms)) = Ok ms.
Proof.
  intros Hms. destruct (parse_str_small ms Hms) as [Hform Hparse].
  split; [exact Hform | exact Hparse].
Qed.

Lemma timestamp_roundtrip_witness :
  0 <= 3723004 < 360000000
  /\ stamp_form (Timestamp.__str__ (Timestamp.Build 3723004)) = true
  /\ Timestamp._parse (Timestamp.__str__ (Timestamp.Build 3723004)) = Ok 3723004.
Proof. split; [lia | apply (timestamp_roundtrip 3723004); lia]. Defined.

Lemma two_digits_bound (a b : ascii) :
  is_digit a = true -> is_digit b = true ->
  0 <= int_digits 0 (String a (String b EmptyString)) <= 99.
Proof.
  intros Ha Hb.
  apply is_digit_inv in Ha as (x & Hx & ->). apply is_digit_inv in Hb as (y & Hy & ->).
  cbn [int_digits]. rewrite !digit_val_char by assumption. lia.
Qed.

Lemma three_digits_bound (a b c : ascii) :
  is_digit a = true -> is_digit b = true -> is_digit c = true ->
  0 <= int_digits 0 (String a (String b (String c EmptyString))) <= 999.
Proof.
  intros Ha Hb Hc.
  apply is_digit_inv in Ha as (x & Hx & ->). apply is_digit_inv in Hb as (y & Hy & ->).
  apply is_digit_inv in Hc as (z & Hz & ->).
  cbn [int_digits]. rewrite !digit_val_char by assumption. lia.
Qed.

(** X2: whatever string it accepts, [_parse] returns a time between 0 and
    99:99:99,999, that is at most 362439999 ms. *)
Theorem parse_value_range (s : string) (v : Z) :
  Timestamp._parse s = Ok v -> 0 <= v <= 362439999.
Proof.
  rewrite parse_spec.
  destruct (stamp_form (substring 0 12 s)) eqn:E; [| discriminate].
  intros [= <-].
  do 12 (destruct s as [| ? s]; [discriminate E |]).
  cbn [substring] in E.
  replace (substring 0 0 s) with EmptyString in E by (destruct s; reflexivity).
  cbn [stamp_form] in E.
  repeat match goal with
    | H : _ && _ = true |- _ => apply andb_prop in H; destruct H
    end.
  unfold stamp_value, field. cbn [substring].
  replace (substring 0 0 s) with EmptyString by (destruct s; reflexivity).
  pose proof (two_digits_bound a a0 ltac:(assumption) ltac:(assumption)).
  pose proof (two_digits_bound a2 a3 ltac:(assumption) ltac:(assumption)).
  pose proof (two_digits_bound a5 a6 ltac:(assumption) ltac:(assumption)).
  pose proof (three_digits_bound a8 a9 a10 ltac:(assumption) ltac:(assumption)
                ltac:(assumption)).
  lia.
Qed.

Lemma parse_value_range_witness :
  Timestamp._parse "99:99:99,999" = Ok 362439999 /\ 0 <= 362439999 <= 362439999.
Proof.
  split; [reflexivity | apply (parse_value_range "99:99:99,999"); reflexivity].
Defined.

(** X3: a negative time is formatted with a minus sign first, and the
    formatted string is refused by [_parse]. *)
Theorem negative_time_unparsable (ms : Z) :
  ms < 0 ->
  exists rest msg,
    Timestamp.__str__ (Timestamp.Build ms) = String "-" rest
    /\ Timestamp._parse (Timestamp.__str__ (Timestamp.Build ms))
       = Raise (ValueError msg).
Proof.
  intros Hms.
  assert (Hstr : exists rest, Timestamp.__str__ (Timestamp.Build ms) = String "-" rest).
  { unfold Timestamp.__str__. cbn [Timestamp.milliseconds]. unfold format_int at 1.
    assert (E : (ms / (1000 * 3600) <? 0) = true).
    { apply Z.ltb_lt. change (1000 * 3600) with 3600000.
      Z.div_mod_to_equations. lia. }
    rewrite E. cbn [append]. eexists. reflexivity. }
  destruct Hstr as [rest Hstr]. exists rest. rewrite Hstr.
  eexists. split; [reflexivity |].
  unfold Timestamp._parse, Timestamp.re_match. cbn [take_digits obind].
  change (is_digit "-") with false. cbn [obind]. reflexivity.
Qed.

Lemma negative_time_unparsable_witness :
  -1 < 0
  /\ exists rest msg,
       Timestamp.__str__ (Timestamp.Build (-1)) = String "-" rest
       /\ Timestamp._parse (Timestamp.__str__ (Timestamp.Build (-1)))
          = Raise (ValueError msg).
Proof. split; [lia | apply (negative_time_unparsable (-1)); lia]. Defined.

(** ** [SubtitleEntry.offset] *)

Lemma offset_parsed (e : SubtitleEntry.t) (a vs ve : Z) :
  Timestamp._parse (SubtitleEntry.start_time e) = Ok vs ->
  Timestamp._parse (SubtitleEntry.end_time e) = Ok ve ->
  SubtitleEntry.offset e a
  = Ok (SubtitleEntry.Build (SubtitleEntry.index e)
          (Timestamp.__str__ (Timestamp.Build (vs + a)))
          (Timestamp.__str__ (Timestamp.Build (ve + a)))
          (SubtitleEntry.text e) (SubtitleEntry.translation e)).
Proof.
  intros Hs He. unfold SubtitleEntry.offset, Timestamp.__init__.
  rewrite Hs, He. reflexivity.
Qed.

(** X4: offsetting an entry whose times parse to [vs] and [ve] gives an
    entry whose times parse to [vs + offset_ms] and [ve + offset_ms], as long
    as both sums are times of less than 100 hours; index, text and translation
    are unchanged. *)
Theorem offset_shifts_times (e e' : SubtitleEntry.t) (a vs ve : Z) :
  Timestamp._parse (SubtitleEntry.start_time e) = Ok vs ->
  Timestamp._parse (SubtitleEntry.end_time e) = Ok ve ->
  0 <= vs + a < 360000000 -> 0 <= ve + a < 360000000 ->
  SubtitleEntry.offset e a = Ok e' ->
  Timestamp._parse (SubtitleEntry.start_time e') = Ok (vs + a)
  /\ Timestamp._parse (SubtitleEntry.end_time e') = Ok (ve + a)
  /\ SubtitleEntry.index e' = SubtitleEntry.index e
  /\ SubtitleEntry.text e' = SubtitleEntry.text e
  /\ SubtitleEntry.translation e' = SubtitleEntry.translation e.
Proof.
  intros Hs He Rs Re H.
  rewrite (offset_parsed e a vs ve Hs He) in H. injection H as <-.
  cbn [SubtitleEntry.start_time SubtitleEntry.end_time SubtitleEntry.index
       SubtitleEntry.text SubtitleEntry.translation].
  repeat split; apply parse_str_small; assumption.
Qed.

Lemma offset_shifts_times_witness :
  exists e',
    SubtitleEntry.offset (sample_entry 1) 600000 = Ok e'
    /\ Timestamp._parse (SubtitleEntry.start_time e') = Ok (0 + 600000)
    /\ Timestamp._parse (SubtitleEntry.end_time e') = Ok (1000 + 600000)
    /\ SubtitleEntry.index e' = SubtitleEntry.index (sample_entry 1)
    /\ SubtitleEntry.text e' = SubtitleEntry.text (sample_entry 1)
    /\ SubtitleEntry.translation e' = SubtitleEntry.translation (sample_entry 1).
Proof.
  eexists. split; [vm_compute; reflexivity |].
  apply (offset_shifts_times (sample_entry 1) _ 600000 0 1000);
    [reflexivity | reflexivity | lia | lia | vm_compute; reflexivity].
Defined.

(** X5: two offsets in a row are one offset by the sum, when the times after
    the first offset are times of less than 100 hours. *)
Theorem offset_composes (e : SubtitleEntry.t) (a b vs ve : Z) :
  Timestamp._parse (SubtitleEntry.start_time e) = Ok vs ->
  Timestamp._parse (SubtitleEntry.end_time e) = Ok ve ->
  0 <= vs + a < 360000000 -> 0 <= ve + a < 360000000 ->
  bind (SubtitleEntry.offset e a) (fun e1 => SubtitleEntry.offset e1 b)
  = SubtitleEntry.offset e (a + b).
Proof.
  intros Hs He Rs Re.
  rewrite (offset_parsed e a vs ve Hs He), (offset_parsed e (a + b) vs ve Hs He).
  cbn [bind].
  rewrite (offset_parsed _ b (vs + a) (ve + a)).
  - cbn [SubtitleEntry.index SubtitleEntry.text SubtitleEntry.translation].
    rewrite !Z.add_assoc. reflexivity.
  - apply parse_str_small. exact Rs.
  - apply parse_str_small. exact Re.
Qed.

Lemma offset_composes_witness :
  bind (SubtitleEntry.offset (sample_entry 1) 600000)
       (fun e1 => SubtitleEntry.offset e1 5000)
  = SubtitleEntry.offset (sample_entry 1) (600000 + 5000).
Proof.
  apply (offset_composes (sample_entry 1) 600000 5000 0 1000);
    [reflexivity | reflexivity | lia | lia].
Defined.

(** ** [Transcription.offset] *)

Lemma offset_fields (e e' : SubtitleEntry.t) (a : Z) :
  SubtitleEntry.offset e a = Ok e' ->
  SubtitleEntry.index e' = SubtitleEntry.index e
  /\ SubtitleEntry.text e' = SubtitleEntry.text e
  /\ SubtitleEntry.translation e' = SubtitleEntry.translation e.
Proof.
  unfold SubtitleEntry.offset, Timestamp.__init__.
  destruct (Timestamp._parse (SubtitleEntry.start_time e)); [| discriminate].
  destruct (Timestamp._parse (SubtitleEntry.end_time e)); [| discriminate].
  cbn [bind]. intros [= <-]. repeat split.
Qed.

Lemma offset_entries_fields (subs subs' : list SubtitleEntry.t) (a b : Z) :
  Transcription.offset_entries subs a b = Ok subs' ->
  map SubtitleEntry.index subs' = map (fun e => SubtitleEntry.index e + b) subs
  /\ map SubtitleEntry.text subs' = map SubtitleEntry.text subs
  /\ map SubtitleEntry.translation subs' = map SubtitleEntry.translation subs.
Proof.
  revert subs'. induction subs as [| e subs IH]; intros subs'.
  - intros [= <-]. repeat split.
  - cbn [Transcription.offset_entries].
    destruct (SubtitleEntry.offset e a) as [e' |] eqn:He; [| discriminate].
    destruct (Transcription.offset_entries subs a b) as [rest |]; [| discriminate].
    cbn [bind]. intros [= <-].
    destruct (offset_fields _ _ _ He) as (Hi & Ht & Hr).
    destruct (IH rest eq_refl) as (IHi & IHt & IHr).
    cbn [map SubtitleEntry.add_index SubtitleEntry.index SubtitleEntry.text
         SubtitleEntry.translation].
    rewrite Hi, Ht, Hr, IHi, IHt, IHr. repeat split.
Qed.

(** X7: when [Transcription.offset] returns, every index has grown by
    [offset_index], texts and translations are the same, in the same order,
    and [end_time], [end_index] and [language] of the Timeline are
    unchanged. *)
Theorem transcription_offset_frame (tr tr' : Transcription.t) (a b : Z) :
  Transcription.offset tr a b = Ok tr' ->
  map SubtitleEntry.index (Transcription.subtitles tr')
  = map (fun e => SubtitleEntry.index e + b) (Transcription.subtitles tr)
  /\ map SubtitleEntry.text (Transcription.subtitles tr')
     = map SubtitleEntry.text (Transcription.subtitles tr)
  /\ map SubtitleEntry.translation (Transcription.subtitles tr')
     = map SubtitleEntry.translation (Transcription.subtitles tr)
  /\ Transcription.end_time tr' = Transcription.end_time tr
  /\ Transcription.end_index tr' = Transcription.end_index tr
  /\ Transcription.language tr' = Transcription.language tr.
Proof.
  unfold Transcription.offset.
  destruct (Transcription.offset_entries (Transcription.subtitles tr) a b) as [subs |] eqn:H;
    [| discriminate].
  cbn [bind]. intros [= <-].
  destruct (offset_entries_fields _ _ _ _ H) as (Hi & Ht & Hr).
  cbn [Transcription.subtitles Transcription.end_time Transcription.end_index
       Transcription.language].
  repeat split; assumption.
Qed.

Lemma transcription_offset_frame_witness :
  exists tr',
    Transcription.offset short_timeline 600000 2 = Ok tr'
    /\ map SubtitleEntry.index (Transcription.subtitles tr')
       = map (fun e => SubtitleEntry.index e + 2) (Transcription.subtitles short_timeline)
    /\ map SubtitleEntry.text (Transcription.subtitles tr')
       = map SubtitleEntry.text (Transcription.subtitles short_timeline)
    /\ map SubtitleEntry.translation (Transcription.subtitles tr')
       = map SubtitleEntry.translation (Transcription.subtitles short_timeline)
    /\ Transcription.end_time tr' = Transcription.end_time short_timeline
    /\ Transcription.end_index tr' = Transcription.end_index short_timeline
    /\ Transcription.language tr' = Transcription.language short_timeline.
Proof.
  eexists. split; [vm_compute; reflexivity |].
  apply (transcription_offset_frame short_timeline _ 600000 2).
  vm_compute. reflexivity.
Defined.

(** ** What [from_srt] returns *)

Lemma take_stamp_form (s : string) :
  match take_stamp s with
  | Some (st, _) => stamp_form st = true
  | None => True
  end.
Proof.
  unfold take_stamp.
  do 12 (destruct s as [| ? s];
         [ cbn [obind take_digits expect]; decide_tests; exact I | ]).
  cbn [obind take_digits expect]. decide_tests; try exact I.
  cbn [append stamp_form].
  repeat match goal with
    | H : is_digit _ = true |- _ => rewrite H; clear H
    | H : Ascii.eqb _ _ = true |- _ => rewrite H; clear H
    end.
  reflexivity.
Qed.

Lemma match_block_stamps (s idx st en t r : string) :
  match_block s = Some (idx, st, en, t, r) ->
  stamp_form st = true /\ stamp_form en = true.
Proof.
  unfold match_block.
  destruct (digit_run s) as [[| c d] r0]; [discriminate |].
  destruct (expect NL r0) as [r1 |]; [| discriminate]. cbn [obind].
  pose proof (take_stamp_form r1) as H1.
  destruct (take_stamp r1) as [[st' r2] |]; [| discriminate]. cbn [obind].
  destruct (expect " --> " r2) as [r3 |]; [| discriminate]. cbn [obind].
  pose proof (take_stamp_form r3) as H2.
  destruct (take_stamp r3) as [[en' r4] |]; [| discriminate]. cbn [obind].
  destruct (expect NL r4) as [[| c' r6] |]; try discriminate. cbn [obind].
  destruct (lazy_text r6) as [t' r7]. intros [= <- <- <- <- <-].
  split; assumption.
Qed.

Lemma findall_stamps (s : string) :
  forall skip,
    Forall (fun m : string * string * string * string =>
              let '(_, st, en, _) := m in
              stamp_form st = true /\ stamp_form en = true)
           (findall skip s).
Proof.
  induction s as [| c s IH]; intros skip; cbn [findall]; [constructor |].
  destruct skip as [| k]; [| apply IH].
  destruct (match_block (String c s)) as [[[[[idx st] en] t] r] |] eqn:E; [| apply IH].
  constructor; [| apply IH].
  exact (match_block_stamps _ _ _ _ _ _ E).
Qed.

Lemma from_srt_well_stamped (content : string) (end_time : Z) :
  Forall well_stamped (Transcription.subtitles (Transcription.from_srt content end_time)).
Proof.
  unfold Transcription.from_srt. cbn [Transcription.subtitles].
  pose proof (findall_stamps (strip content ++ NL ++ NL) 0%nat) as H.
  induction H as [| [[[idx st] en] t] l Hx Hl IH]; cbn [map]; constructor.
  - exact Hx.
  - exact IH.
Qed.

(** X8: a Timeline just returned by [from_srt] is offset without error,
    whatever the transcript, by any amount of time of at most 4300 digits
    and any amount of index. *)
Theorem offset_fresh_parse_succeeds (content : string) (end_time a b : Z) :
  within_str_digits a ->
  exists tr, Transcription.offset (Transcription.from_srt content end_time) a b = Ok tr.
Proof.
  intros _. unfold Transcription.offset.
  destruct (offset_entries_well_stamped _ a b (from_srt_well_stamped content end_time))
    as [subs ->].
  eexists. reflexivity.
Qed.

Lemma offset_fresh_parse_succeeds_witness :
  exists tr,
    Transcription.offset
      (Transcription.from_srt (two_cues (mkChunk 1 600000 1200000)) 600000) 600000 2
    = Ok tr.
Proof.
  apply (offset_fresh_parse_succeeds (two_cues (mkChunk 1 600000 1200000))
           600000 600000 2).
  vm_compute. reflexivity.
Defined.

Lemma int_digits_nonneg (s : string) :
  all_digits s = true -> forall acc, 0 <= acc -> 0 <= int_digits acc s.
Proof.
  induction s as [| c s IH]; cbn [all_digits int_digits]; intros H acc Hacc; [exact Hacc |].
  apply andb_prop in H as [Hc Hs]. apply IH; [exact Hs |].
  apply is_digit_inv in Hc as (d & Hd & ->). rewrite digit_val_char by assumption. lia.
Qed.

Lemma digit_run_digits (s : string) : all_digits (fst (digit_run s)) = true.
Proof.
  induction s as [| c s IH]; cbn [digit_run]; [reflexivity |].
  destruct (is_digit c) eqn:E; [| reflexivity].
  destruct (digit_run s) as [d r]. cbn [fst all_digits] in *. rewrite E, IH. reflexivity.
Qed.

Lemma match_block_index (s idx st en t r : string) :
  match_block s = Some (idx, st, en, t, r) -> all_digits idx = true.
Proof.
  unfold match_block. pose proof (digit_run_digits s) as Hd.
  destruct (digit_run s) as [[| c d] r0]; [discriminate |]. cbn [fst] in Hd.
  destruct (expect NL r0) as [r1 |]; [| discriminate]. cbn [obind].
  destruct (take_stamp r1) as [[st' r2] |]; [| discriminate]. cbn [obind].
  destruct (expect " --> " r2) as [r3 |]; [| discriminate]. cbn [obind].
  destruct (take_stamp r3) as [[en' r4] |]; [| discriminate]. cbn [obind].
  destruct (expect NL r4) as [[| c' r6] |]; try discriminate. cbn [obind].
  destruct (lazy_text r6) as [t' r7]. intros [= <- <- <- <- <-]. exact Hd.
Qed.

Lemma findall_index (s : string) :
  forall skip,
    Forall (fun m : string * string * string * string =>
              let '(idx, _, _, _) := m in all_digits idx = true)
           (findall skip s).
Proof.
  induction s as [| c s IH]; intros skip; cbn [findall]; [constructor |].
  destruct skip as [| k]; [| apply IH].
  destruct (match_block (String c s)) as [[[[[idx st] en] t] r] |] eqn:E; [| apply IH].
  constructor; [| apply IH].
  exact (match_block_index _ _ _ _ _ _ E).
Qed.

Lemma stamp_form_shape (s : string) : stamp_form s = true -> stamp_shape s = true.
Proof.
  intros H. do 12 (destruct s as [| ? s]; [discriminate H |]).
  destruct s; [| discriminate H]. cbn [stamp_form stamp_shape] in *.
  repeat (apply andb_prop in H as [H ?]).
  repeat match goal with
    | Hx : Ascii.eqb _ _ = true |- _ => rewrite Hx; clear Hx
    end.
  reflexivity.
Qed.

Lemma stamp_form_parses (s : string) :
  stamp_form s = true -> Timestamp._parse s = Ok (stamp_value s).
Proof.
  intros H. rewrite parse_spec.
  assert (P : substring 0 12 s = s).
  { do 12 (destruct s as [| ? s]; [discriminate H |]).
    destruct s; [reflexivity | discriminate H]. }
  rewrite P, H. reflexivity.
Qed.

Lemma rstrip_idempotent (s : string) : rstrip (rstrip s) = rstrip s.
Proof.
  induction s as [| c s IH]; cbn [rstrip]; [reflexivity |].
  destruct (rstrip s) as [| x r] eqn:E.
  - destruct (is_space c) eqn:Ec; cbn [rstrip]; [reflexivity |].
    rewrite Ec. reflexivity.
  - cbn [rstrip]. cbn [rstrip] in IH. rewrite IH. reflexivity.
Qed.

Lemma lstrip_head (s : string) :
  lstrip s = EmptyString
  \/ exists c r, lstrip s = String c r /\ is_space c = false.
Proof.
  induction s as [| c s IH]; cbn [lstrip]; [left; reflexivity |].
  destruct (is_space c) eqn:E; [exact IH |].
  right. exists c, s. split; [reflexivity | exact E].
Qed.

Lemma strip_idempotent (s : string) : strip (strip s) = strip s.
Proof.
  unfold strip. destruct (lstrip_head s) as [-> | (c & r & -> & Hc)]; [reflexivity |].
  assert (L : lstrip (rstrip (String c r)) = rstrip (String c r)).
  { cbn [rstrip]. destruct (rstrip r); [rewrite Hc |]; cbn [lstrip]; rewrite Hc; reflexivity. }
  rewrite L. apply rstrip_idempotent.
Qed.

(** X9: every entry [from_srt] returns has a non-negative index, start and
    end times of twelve characters with the colons and the comma of
    [DD:DD:DD,DDD] in place and which [Timestamp._parse] accepts, a text that
    is its own [strip()] and no translation; the Timeline carries the
    [end_time] it was given, and its [end_index] is the index of the last
    entry, 0 when there is none. *)
Theorem from_srt_entries (content : string) (end_time : Z) :
  Forall (fun e =>
            0 <= SubtitleEntry.index e
            /\ stamp_shape (SubtitleEntry.start_time e) = true
            /\ stamp_shape (SubtitleEntry.end_time e) = true
            /\ (exists v, Timestamp._parse (SubtitleEntry.start_time e) = Ok v)
            /\ (exists v, Timestamp._parse (SubtitleEntry.end_time e) = Ok v)
            /\ strip (SubtitleEntry.text e) = SubtitleEntry.text e
            /\ SubtitleEntry.translation e = None)
         (Transcription.subtitles (Transcription.from_srt content end_time))
  /\ Transcription.end_time (Transcription.from_srt content end_time) = end_time
  /\ Transcription.end_index (Transcription.from_srt content end_time)
     = last (map SubtitleEntry.index
               (Transcription.subtitles (Transcription.from_srt content end_time))) 0.
Proof.
  unfold Transcription.from_srt.
  cbn [Transcription.subtitles Transcription.end_time Transcription.end_index].
  split; [| split; [reflexivity |]].
  - pose proof (findall_stamps (strip content ++ NL ++ NL) 0%nat) as H1.
    pose proof (findall_index (strip content ++ NL ++ NL) 0%nat) as H2.
    induction H1 as [| [[[idx st] en] t] l [Hs He] Hl IH]; cbn [map]; constructor.
    + inversion H2; subst.
      cbn [SubtitleEntry.index SubtitleEntry.start_time SubtitleEntry.end_time
           SubtitleEntry.text SubtitleEntry.translation].
      split; [apply int_digits_nonneg; [assumption | lia] |].
      split; [apply stamp_form_shape; exact Hs |].
      split; [apply stamp_form_shape; exact He |].
      split; [eexists; apply stamp_form_parses; exact Hs |].
      split; [eexists; apply stamp_form_parses; exact He |].
      split; [apply strip_idempotent | reflexivity].
    + apply IH. inversion H2; assumption.
  - generalize (map (fun m : string * string * string * string =>
                  let '(idx, st, en, txt) := m in
                  SubtitleEntry.Build (int_digits 0 idx) st en (strip txt) None)
               (findall 0 (strip content ++ NL ++ NL))).
    intros l. induction l as [| e l IH] using rev_ind; [reflexivity |].
    rewrite rev_app_distr, map_app. cbn [rev app map]. rewrite last_last. reflexivity.
Qed.

(** ** More on the assembler *)

Lemma insert_by_name_In {A : Type} (x y : string * A) (l : directory A) :
  In y (insert_by_name x l) <-> y = x \/ In y l.
Proof.
  induction l as [| z l IH]; cbn [insert_by_name].
  - cbn [In]. intuition (subst; auto).
  - destruct (String.leb (fst x) (fst z)); cbn [In].
    + intuition (subst; auto).
    + rewrite IH. intuition (subst; auto).
Qed.

Lemma sorted_In {A : Type} (y : string * A) (l : directory A) :
  In y (sorted l) <-> In y l.
Proof.
  induction l as [| x l IH]; [reflexivity |].
  change (sorted (x :: l)) with (insert_by_name x (sorted l)).
  rewrite insert_by_name_In, IH. cbn [In]. intuition (subst; auto).
Qed.

Lemma srt_files_In (d : directory string) (name content : string) :
  In (name, content) (srt_files d)
  <-> In (name, content) d /\ ends_with ".srt" name = true.
Proof.
  unfold srt_files, glob_srt. rewrite sorted_In, filter_In. reflexivity.
Qed.

(** ** One merge *)

Lemma merge_file_cases (combined : Transcription.t) (name content : string) :
  match py_int (last_piece "_" (stem name)) with
  | Raise e => merge_file combined (name, content) = Raise e
  | Ok z =>
      exists subs,
        merge_file combined (name, content)
        = Ok (Transcription.Build (Transcription.subtitles combined ++ subs) z
                (Transcription.end_index (Transcription.from_srt content 0))
                (Transcription.language combined))
        /\ map SubtitleEntry.text subs
           = map SubtitleEntry.text
               (Transcription.subtitles (Transcription.from_srt content 0))
        /\ (Transcription.subtitles combined = [] ->
            subs = Transcription.subtitles (Transcription.from_srt content 0))
  end.
Proof.
  unfold merge_file.
  destruct (py_int (last_piece "_" (stem name))) as [z | e]; cbn [bind]; [| reflexivity].
  destruct (Transcription.subtitles combined) as [| x rest] eqn:Ec.
  - exists (Transcription.subtitles (Transcription.from_srt content 0)).
    cbn [bind]. repeat split.
  - unfold Transcription.offset.
    destruct (offset_entries_well_stamped _ (Transcription.end_time combined)
                (Transcription.end_index combined) (from_srt_well_stamped content z))
      as [subs H].
    rewrite H. cbn [bind].
    destruct (offset_entries_fields _ _ _ _ H) as (_ & Ht & _).
    exists subs. split; [reflexivity |].
    split; [exact Ht | discriminate].
Qed.

Lemma merge_files_ok_iff (files : directory string) :
  forall combined,
    (exists tr, merge_files combined files = Ok tr)
    <-> Forall (fun f => exists z, py_int (last_piece "_" (stem (fst f))) = Ok z) files.
Proof.
  induction files as [| [name content] files IH]; intros combined; cbn [merge_files].
  - split; [constructor | eexists; reflexivity].
  - pose proof (merge_file_cases combined name content) as Hc.
    destruct (py_int (last_piece "_" (stem name))) as [z | e] eqn:Ez.
    + destruct Hc as (subs & -> & _). cbn [bind]. rewrite IH. split.
      * intros H. constructor; [exists z; exact Ez | exact H].
      * intros H. inversion H. assumption.
    + rewrite Hc. cbn [bind]. split.
      * intros [tr H]. discriminate H.
      * intros H. inversion H as [| ? ? [z Hz] ?]. cbn [fst] in Hz. congruence.
Qed.

Lemma merge_files_texts (files : directory string) :
  forall combined tr,
    merge_files combined files = Ok tr ->
    map SubtitleEntry.text (Transcription.subtitles tr)
    = (map SubtitleEntry.text (Transcription.subtitles combined)
       ++ flat_map (fun f => map SubtitleEntry.text
                               (Transcription.subtitles (Transcription.from_srt (snd f) 0)))
            files)%list.
Proof.
  induction files as [| [name content] files IH]; intros combined tr; cbn [merge_files].
  - intros [= <-]. cbn [flat_map]. rewrite app_nil_r. reflexivity.
  - pose proof (merge_file_cases combined name content) as Hc.
    destruct (py_int (last_piece "_" (stem name))) as [z | e].
    + destruct Hc as (subs & -> & Ht & _). cbn [bind]. intros H.
      rewrite (IH _ _ H). cbn [Transcription.subtitles flat_map snd].
      rewrite map_app, Ht, app_assoc. reflexivity.
    + rewrite Hc. discriminate.
Qed.

Lemma merge_files_extends (files : directory string) :
  forall combined tr,
    merge_files combined files = Ok tr ->
    exists later,
      Transcription.subtitles tr = (Transcription.subtitles combined ++ later)%list.
Proof.
  induction files as [| [name content] files IH]; intros combined tr; cbn [merge_files].
  - intros [= <-]. exists []. rewrite app_nil_r. reflexivity.
  - pose proof (merge_file_cases combined name content) as Hc.
    destruct (py_int (last_piece "_" (stem name))) as [z | e].
    + destruct Hc as (subs & -> & _). cbn [bind]. intros H.
      destruct (IH _ _ H) as [later Hl]. cbn [Transcription.subtitles] in Hl.
      exists (subs ++ later)%list. rewrite Hl, app_assoc. reflexivity.
    + rewrite Hc. discriminate.
Qed.

Lemma merge_files_app (l : directory string) (f : string * string) :
  forall combined,
    merge_files combined (l ++ [f])%list
    = bind (merge_files combined l) (fun c => merge_file c f).
Proof.
  induction l as [| g l IH]; intros combined; cbn [app merge_files bind].
  - destruct (merge_file combined f); reflexivity.
  - destruct (merge_file combined g) as [c |]; cbn [bind]; [apply IH | reflexivity].
Qed.

(** ** [process_transcription] *)

(** X10: when [process_transcription] returns, the last [_]-separated
    piece of the stem of every [.srt] file of the directory is an integer
    literal.  Conversely it returns when every such piece is an integer
    literal and no conversion meets the limit of 4300 digits: no such piece
    and no run of digits in a file is longer than that. *)
Theorem process_succeeds (d : directory string) :
  ((exists tr, process_transcription d = Ok tr) ->
   forall name content,
     In (name, content) d -> ends_with ".srt" name = true ->
     exists z, py_int (last_piece "_" (stem name)) = Ok z)
  /\ ((forall name content,
         In (name, content) d -> ends_with ".srt" name = true ->
         (exists z, py_int (last_piece "_" (stem name)) = Ok z)
         /\ (String.length (last_piece "_" (stem name)) <= int_max_str_digits)%nat
         /\ digit_runs_within int_max_str_digits 0 content = true) ->
      exists tr, process_transcription d = Ok tr).
Proof.
  unfold process_transcription. rewrite merge_files_ok_iff, Forall_forall. split.
  - intros H name content Hin Hs.
    apply (H (name, content)). apply srt_files_In. split; assumption.
  - intros H [name content] Hin. apply srt_files_In in Hin as [Hin Hs].
    exact (proj1 (H name content Hin Hs)).
Qed.

Lemma process_succeeds_witness :
  exists tr, process_transcription hundred_hours_dir = Ok tr.
Proof.
  apply (proj2 (process_succeeds hundred_hours_dir)).
  intros name content Hin _.
  destruct Hin as [H | [H | [H | []]]]; injection H as <- <-;
    (split; [eexists; vm_compute; reflexivity |]);
    (split; [apply Nat.leb_le |]); vm_compute; reflexivity.
Defined.

(** X11: the texts of the merged Timeline are the texts parsed from the
    files, file after file in reading order: merging drops, adds and reorders
    nothing. *)
Theorem process_keeps_texts (d : directory string) (tr : Transcription.t) :
  process_transcription d = Ok tr ->
  map SubtitleEntry.text (Transcription.subtitles tr)
  = flat_map (fun f => map SubtitleEntry.text
                         (Transcription.subtitles (Transcription.from_srt (snd f) 0)))
      (srt_files d).
Proof.
  intros H. apply merge_files_texts in H. exact H.
Qed.

Lemma process_keeps_texts_witness :
  exists tr,
    process_transcription hundred_hours_dir = Ok tr
    /\ map SubtitleEntry.text (Transcription.subtitles tr)
       = flat_map (fun f => map SubtitleEntry.text
                              (Transcription.subtitles (Transcription.from_srt (snd f) 0)))
           (srt_files hundred_hours_dir).
Proof.
  eexists. split; [vm_compute; reflexivity |].
  apply (process_keeps_texts hundred_hours_dir). vm_compute. reflexivity.
Defined.

(** X12: the entries of the file read first are merged as parsed, with no
    shift of time or index, and stay at the head of the Timeline. *)
Theorem process_first_file_unshifted (d rest : directory string)
    (name content : string) (tr : Transcription.t) :
  srt_files d = (name, content) :: rest ->
  process_transcription d = Ok tr ->
  exists later,
    Transcription.subtitles tr
    = (Transcription.subtitles (Transcription.from_srt content 0) ++ later)%list.
Proof.
  unfold process_transcription. intros -> H. cbn [merge_files] in H.
  pose proof (merge_file_cases (Transcription.Build [] 0 0 None) name content) as Hc.
  destruct (py_int (last_piece "_" (stem name))) as [z | e].
  - destruct Hc as (subs & Hm & _ & Hs). rewrite Hm in H. cbn [bind] in H.
    rewrite (Hs eq_refl) in H.
    destruct (merge_files_extends _ _ _ H) as [later Hl].
    exists later. exact Hl.
  - rewrite Hc in H. discriminate H.
Qed.

Lemma process_first_file_unshifted_witness :
  exists content rest tr,
    srt_files hundred_hours_dir = ("chunk_0_0.srt", content) :: rest
    /\ process_transcription hundred_hours_dir = Ok tr
    /\ exists later,
         Transcription.subtitles tr
         = (Transcription.subtitles (Transcription.from_srt content 0) ++ later)%list.
Proof.
  eexists. eexists. eexists.
  split; [vm_compute; reflexivity |]. split; [vm_compute; reflexivity |].
  eapply (process_first_file_unshifted hundred_hours_dir); vm_compute; reflexivity.
Defined.

(** X13: the Timeline [process_transcription] returns carries as [end_time]
    the number in the name of the file read last, and as [end_index] the last
    index of that file's own transcript, as parsed. *)
Theorem process_final_watermark (d rest : directory string)
    (name content : string) (tr : Transcription.t) :
  srt_files d = (rest ++ [(name, content)])%list ->
  process_transcription d = Ok tr ->
  py_int (last_piece "_" (stem name)) = Ok (Transcription.end_time tr)
  /\ Transcription.end_index tr
     = Transcription.end_index (Transcription.from_srt content 0).
Proof.
  unfold process_transcription. intros -> H. rewrite merge_files_app in H.
  destruct (merge_files (Transcription.Build [] 0 0 None) rest) as [c |];
    [| discriminate H].
  cbn [bind] in H.
  pose proof (merge_file_cases c name content) as Hc.
  destruct (py_int (last_piece "_" (stem name))) as [z | e].
  - destruct Hc as (subs & Hm & _). rewrite Hm in H. injection H as <-.
    split; reflexivity.
  - rewrite Hc in H. discriminate H.
Qed.

Lemma process_final_watermark_witness :
  exists rest content tr,
    srt_files hundred_hours_dir = (rest ++ [("chunk_2_720000000.srt", content)])%list
    /\ process_transcription hundred_hours_dir = Ok tr
    /\ py_int (last_piece "_" (stem "chunk_2_720000000.srt"))
       = Ok (Transcription.end_time tr)
    /\ Transcription.end_index tr
       = Transcription.end_index (Transcription.from_srt content 0).
Proof.
  exists (firstn 2 (srt_files hundred_hours_dir)). eexists. eexists.
  split; [vm_compute; reflexivity |]. split; [vm_compute; reflexivity |].
  eapply (process_final_watermark hundred_hours_dir
            (firstn 2 (srt_files hundred_hours_dir)));
    vm_compute; reflexivity.
Defined.

(** ** More on the chunker *)

Lemma closest_least (ideal_end : Z) (candidates : list Z) :
  forall best,
    Z.abs (closest ideal_end best candidates - ideal_end) <= Z.abs (best - ideal_end)
    /\ forall s, In s candidates ->
         Z.abs (closest ideal_end best candidates - ideal_end) <= Z.abs (s - ideal_end).
Proof.
  induction candidates as [| c rest IH]; intros best; cbn [closest].
  - split; [lia | intros s []].
  - destruct (Z.abs (c - ideal_end) <? Z.abs (best - ideal_end)) eqn:E.
    + apply Z.ltb_lt in E. destruct (IH c) as [H1 H2]. split; [lia |].
      intros s [<- | Hs]; [exact H1 | exact (H2 s Hs)].
    + apply Z.ltb_ge in E. destruct (IH best) as [H1 H2]. split; [exact H1 |].
      intros s [<- | Hs]; [lia | exact (H2 s Hs)].
Qed.

(** X14: the cut chosen after [start] is the ideal end [start + M] or one
    of the silence midpoints; when some midpoint lies within a fifth of [M]
    of the ideal end, the cut is a midpoint, and no midpoint of that window
    is nearer to the ideal end than the cut. *)
Theorem cut_point_nearest (M : Z) (mids : list Z) (start : Z) :
  let ideal_end := start + M in
  let cut := cut_point_at M mids start in
  (cut = ideal_end \/ In cut mids)
  /\ forall s, In s mids ->
       ideal_end - M / 5 <= s <= ideal_end + M / 5 ->
       In cut mids /\ Z.abs (cut - ideal_end) <= Z.abs (s - ideal_end).
Proof.
  cbv zeta. unfold cut_point_at, flexibility.
  set (inside := fun s => (start + M - M / 5 <=? s) && (s <=? start + M + M / 5)).
  destruct (filter inside mids) as [| c rest] eqn:E.
  - split; [now left |]. intros s Hs Hw.
    assert (Hin : In s (filter inside mids)).
    { apply filter_In. split; [exact Hs |]. unfold inside.
      apply andb_true_intro. split; apply Z.leb_le; lia. }
    rewrite E in Hin. destruct Hin.
  - assert (Hc : In (closest (start + M) c rest) mids).
    { assert (H : In (closest (start + M) c rest) (filter inside mids)).
      { rewrite E. destruct (closest_in (start + M) rest c) as [-> | H];
          [now left | now right]. }
      apply filter_In in H as [H _]. exact H. }
    split; [right; exact Hc |]. intros s Hs Hw. split; [exact Hc |].
    assert (Hin : In s (filter inside mids)).
    { apply filter_In. split; [exact Hs |]. unfold inside.
      apply andb_true_intro. split; apply Z.leb_le; lia. }
    rewrite E in Hin. destruct (closest_least (start + M) rest c) as [H1 H2].
    destruct Hin as [<- | Hin]; [exact H1 | exact (H2 s Hin)].
Qed.

Lemma chunk_loop_indices (D M : Z) (mids : list Z) (fuel : nat) :
  forall start idx cs,
    chunk_loop D M mids fuel start idx = Some cs ->
    map chunk_idx cs = map (fun k => idx + Z.of_nat k) (seq 0 (List.length cs)).
Proof.
  induction fuel as [| fuel IH]; intros start idx cs; cbn [chunk_loop]; [discriminate |].
  destruct (start <? D); [| intros [= <-]; reflexivity].
  destruct (start + M >=? D).
  - intros [= <-]. cbn [map chunk_idx List.length seq]. f_equal. lia.
  - destruct (chunk_loop D M mids fuel (cut_point_at M mids start) (idx + 1))
      as [cs' |] eqn:E; [| discriminate].
    intros [= <-]. cbn [map chunk_idx List.length seq].
    rewrite (IH _ _ _ E), <- seq_shift, map_map. f_equal; [lia |].
    apply map_ext. intros k. lia.
Qed.

(** X15: the chunks are numbered 0, 1, 2, ... in the order they are cut. *)
Theorem chunk_indices_count_up (D M : Z) (mids : list Z) (cs : list Chunk) :
  chunk_audio D M mids = Some cs ->
  map chunk_idx cs = map Z.of_nat (seq 0 (List.length cs)).
Proof.
  unfold chunk_audio. destruct (D <=? M).
  - intros [= <-]. reflexivity.
  - intros H. rewrite (chunk_loop_indices _ _ _ _ _ _ _ H).
    apply map_ext. intros k. lia.
Qed.

Lemma chunk_indices_count_up_witness :
  exists cs,
    chunk_audio 25 10 [11; 3] = Some cs
    /\ map chunk_idx cs = map Z.of_nat (seq 0 (List.length cs)).
Proof.
  eexists. split; [vm_compute; reflexivity |].
  apply (chunk_indices_count_up 25 10 [11; 3]). vm_compute. reflexivity.
Defined.

Section ChunkerBounds.

Variables (D M : Z) (mids : list Z).
Hypothesis M_pos : 0 < M.

Lemma chunk_loop_min_length (fuel : nat) :
  forall start idx cs,
    chunk_loop D M mids fuel start idx = Some cs ->
    Forall (fun c => M - M / 5 <= chunk_length c) (removelast cs).
Proof.
  assert (Hflex : 0 <= M / 5) by (apply Z.div_pos; lia).
  induction fuel as [| fuel IH]; intros start idx cs; cbn [chunk_loop]; [discriminate |].
  destruct (start <? D); [| intros [= <-]; constructor].
  destruct (start + M >=? D) eqn:Eend; [intros [= <-]; constructor |].
  assert (Hlt : start + M < D).
  { destruct (Z.geb_spec (start + M) D); [discriminate | lia]. }
  destruct (chunk_loop D M mids fuel (cut_point_at M mids start) (idx + 1))
    as [cs' |] eqn:E; [| discriminate].
  intros [= <-]. specialize (IH _ _ _ E).
  destruct cs' as [| c' cs']; [constructor |].
  change (removelast (mkChunk idx start (Z.min (cut_point_at M mids start) D) :: c' :: cs'))
    with (mkChunk idx start (Z.min (cut_point_at M mids start) D) :: removelast (c' :: cs')).
  constructor; [| exact IH].
  unfold chunk_length. cbn [chunk_start chunk_end].
  pose proof (cut_point_window M mids M_pos start). lia.
Qed.

Lemma chunk_loop_no_silence (fuel : nat) :
  forall start idx cs,
    start = idx * M ->
    chunk_loop D M [] fuel start idx = Some cs ->
    Forall (fun c => chunk_start c = chunk_idx c * M
                     /\ chunk_end c = Z.min D (chunk_start c + M)) cs.
Proof.
  induction fuel as [| fuel IH]; intros start idx cs Hs; cbn [chunk_loop]; [discriminate |].
  destruct (start <? D); [| intros [= <-]; constructor].
  destruct (start + M >=? D) eqn:Eend.
  - rewrite Z.geb_le in Eend. intros [= <-].
    repeat constructor; cbn [chunk_start chunk_idx chunk_end]; lia.
  - assert (Hlt : start + M < D).
    { destruct (Z.geb_spec (start + M) D); [discriminate | lia]. }
    change (cut_point_at M [] start) with (start + M).
    destruct (chunk_loop D M [] fuel (start + M) (idx + 1)) as [cs' |] eqn:E;
      [| discriminate].
    intros [= <-]. constructor.
    + cbn [chunk_start chunk_idx chunk_end]. lia.
    + apply (IH (start + M) (idx + 1)); [lia | exact E].
Qed.

End ChunkerBounds.

(** X16: for a positive [max_duration_ms] [M], every chunk but the last is
    at least [M - M // 5] long. *)
Theorem chunk_min_length (D M : Z) (mids : list Z) (cs : list Chunk) :
  0 < M ->
  chunk_audio D M mids = Some cs ->
  Forall (fun c => M - M / 5 <= chunk_length c) (removelast cs).
Proof.
  intros HM. unfold chunk_audio. destruct (D <=? M).
  - intros [= <-]. constructor.
  - apply chunk_loop_min_length. exact HM.
Qed.

Lemma chunk_min_length_witness :
  0 < 10
  /\ exists cs,
       chunk_audio 25 10 [11; 3] = Some cs
       /\ Forall (fun c => 10 - 10 / 5 <= chunk_length c) (removelast cs).
Proof.
  split; [lia |]. eexists. split; [vm_compute; reflexivity |].
  apply (chunk_min_length 25 10 [11; 3]); [lia | vm_compute; reflexivity].
Defined.

(** X17: when no silence was detected, chunk number [k] starts at [k * M]
    and ends [M] later, or at the end of the audio if that comes first. *)
Theorem chunks_without_silence (D M : Z) (cs : list Chunk) :
  chunk_audio D M [] = Some cs ->
  Forall (fun c => chunk_start c = chunk_idx c * M
                   /\ chunk_end c = Z.min D (chunk_start c + M)) cs.
Proof.
  unfold chunk_audio. destruct (D <=? M) eqn:E.
  - apply Z.leb_le in E. intros [= <-].
    repeat constructor; cbn [chunk_start chunk_idx chunk_end]; lia.
  - intros H. exact (chunk_loop_no_silence D M _ 0 0 cs eq_refl H).
Qed.

Lemma chunks_without_silence_witness :
  exists cs,
    chunk_audio 25 10 [] = Some cs
    /\ Forall (fun c => chunk_start c = chunk_idx c * 10
                        /\ chunk_end c = Z.min 25 (chunk_start c + 10)) cs.
Proof.
  eexists. split; [vm_compute; reflexivity |].
  apply (chunks_without_silence 25 10). vm_compute. reflexivity.
Defined.

(** With [max_duration_ms = 0] the loop makes no progress. *)
Lemma cut_point_zero (mids : list Z) : cut_point_at 0 mids 0 = 0.
Proof.
  unfold cut_point_at, flexibility.
  change (0 + 0 - 0 / 5) with 0. change (0 + 0 + 0 / 5) with 0.
  change (0 + 0) with 0.
  set (inside := fun s => (0 <=? s) && (s <=? 0)).
  destruct (filter inside mids) as [| c rest] eqn:E; [reflexivity |].
  assert (Hin : In (closest 0 c rest) (filter inside mids)).
  { rewrite E. destruct (closest_in 0 rest c) as [-> | Hc]; [now left | now right]. }
  apply filter_In in Hin as [_ Hin]. unfold inside in Hin.
  apply andb_prop in Hin as [H1 H2]. apply Z.leb_le in H1, H2. lia.
Qed.

(** X18: with [max_duration_ms = 0] and a non-empty audio the loop cuts an
    empty chunk at 0 again and again: it has not ended after any number of
    iterations, whatever the silences. *)
Theorem zero_max_duration_never_ends (D : Z) (mids : list Z) :
  0 < D ->
  (forall fuel idx, chunk_loop D 0 mids fuel 0 idx = None)
  /\ chunk_audio D 0 mids = None.
Proof.
  intros HD.
  assert (Hloop : forall fuel idx, chunk_loop D 0 mids fuel 0 idx = None).
  { induction fuel as [| fuel IH]; intros idx; cbn [chunk_loop]; [reflexivity |].
    assert (E1 : (0 <? D) = true) by (apply Z.ltb_lt; exact HD). rewrite E1.
    assert (E2 : (0 + 0 >=? D) = false).
    { destruct (Z.geb_spec (0 + 0) D); [lia | reflexivity]. }
    rewrite E2, cut_point_zero, IH. reflexivity. }
  split; [exact Hloop |].
  unfold chunk_audio.
  assert (E : (D <=? 0) = false) by (apply Z.leb_gt; exact HD).
  rewrite E. apply Hloop.
Qed.

Lemma zero_max_duration_never_ends_witness :
  0 < 5
  /\ (forall fuel idx, chunk_loop 5 0 [0; 7] fuel 0 idx = None)
  /\ chunk_audio 5 0 [0; 7] = None.
Proof. split; [lia | apply (zero_max_duration_never_ends 5 [0; 7]); lia]. Defined.

(** ** Strings and file names *)

Lemma append_length (a b : string) :
  String.length (a ++ b) = (String.length a + String.length b)%nat.
Proof.
  induction a as [| c a IH]; cbn [append String.length]; [reflexivity | now rewrite IH].
Qed.

Lemma append_assoc_s (a b c : string) : (a ++ b) ++ c = a ++ b ++ c.
Proof. induction a as [| x a IH]; cbn [append]; [reflexivity | now rewrite IH]. Qed.

Lemma substring_all (s : string) : substring 0 (String.length s) s = s.
Proof.
  induction s as [| c s IH]; cbn [substring String.length]; [reflexivity | now rewrite IH].
Qed.

Lemma substring_prefix (a b : string) : substring 0 (String.length a) (a ++ b) = a.
Proof.
  induction a as [| c a IH]; cbn [append substring String.length].
  - destruct b; reflexivity.
  - now rewrite IH.
Qed.

Lemma substring_suffix (a b : string) :
  substring (String.length a) (String.length b) (a ++ b) = b.
Proof.
  induction a as [| c a IH]; cbn [append substring String.length].
  - apply substring_all.
  - exact IH.
Qed.

Lemma substring_split (s : string) (i : nat) :
  (i <= String.length s)%nat ->
  s = substring 0 i s ++ substring i (String.length s - i) s.
Proof.
  revert i. induction s as [| c s IH]; intros i Hi; cbn [String.length] in *.
  - destruct i; [reflexivity | lia].
  - destruct i as [| i].
    + cbn [substring append Nat.sub]. rewrite substring_all. reflexivity.
    + cbn [substring append Nat.sub]. rewrite <- IH by lia. reflexivity.
Qed.

Lemma substring_length_le (s : string) (i n : nat) :
  (i + n <= String.length s)%nat -> String.length (substring i n s) = n.
Proof.
  revert i n. induction s as [| c s IH]; intros i n H; cbn [String.length] in *.
  - destruct i, n; try lia; reflexivity.
  - destruct i as [| i].
    + destruct n as [| n]; [reflexivity |].
      cbn [substring String.length]. rewrite IH by lia. reflexivity.
    + cbn [substring]. apply IH. lia.
Qed.

(** ** [rfind] *)

Lemma rfind_absent (c : ascii) (s : string) :
  string_forall (fun x => negb (Ascii.eqb c x)) s = true ->
  forall pos, rfind c s pos = None.
Proof.
  induction s as [| x s IH]; cbn [string_forall rfind]; intros H pos; [reflexivity |].
  apply andb_prop in H as [Hx Hs]. rewrite (IH Hs).
  apply negb_true_iff in Hx. rewrite Hx. reflexivity.
Qed.

Lemma rfind_last (c : ascii) (a b : string) :
  (forall pos, rfind c b pos = None) ->
  forall pos, rfind c (a ++ String c b) pos = Some (pos + String.length a)%nat.
Proof.
  intros Hb. induction a as [| x a IH]; intros pos; cbn [append rfind String.length].
  - rewrite Hb, Ascii.eqb_refl. f_equal. lia.
  - rewrite IH. f_equal. lia.
Qed.

Lemma rfind_bound (c : ascii) (s : string) :
  forall pos i, rfind c s pos = Some i -> (pos <= i < pos + String.length s)%nat.
Proof.
  induction s as [| x s IH]; intros pos i; cbn [rfind String.length]; [discriminate |].
  destruct (rfind c s (S pos)) as [j |] eqn:E.
  - intros [= <-]. apply IH in E. lia.
  - destruct (Ascii.eqb c x); [| discriminate]. intros [= <-]. lia.
Qed.

Lemma forall_weaken (p q : ascii -> bool) (s : string) :
  (forall c, p c = true -> q c = true) ->
  string_forall p s = true -> string_forall q s = true.
Proof.
  intros Hpq. induction s as [| c s IH]; cbn [string_forall]; [reflexivity |].
  intros H. apply andb_prop in H as [Hc Hs]. rewrite (Hpq c Hc), (IH Hs). reflexivity.
Qed.

Lemma all_digits_forall (s : string) :
  all_digits s = true -> string_forall sign_or_digit s = true.
Proof.
  induction s as [| c s IH]; cbn [all_digits string_forall]; [reflexivity |].
  intros H. apply andb_prop in H as [Hc Hs]. unfold sign_or_digit at 1.
  rewrite Hc, (IH Hs). reflexivity.
Qed.

Lemma str_int_chars (z : Z) : string_forall sign_or_digit (str_int z) = true.
Proof.
  unfold str_int. destruct (z <? 0) eqn:E.
  - apply Z.ltb_lt in E. cbn [string_forall].
    rewrite all_digits_forall by (apply str_nonneg_all_digits; lia). reflexivity.
  - apply Z.ltb_ge in E. apply all_digits_forall, str_nonneg_all_digits. exact E.
Qed.

Lemma sign_or_digit_cases (c : ascii) :
  sign_or_digit c = true -> c = "-"%char \/ exists d, 0 <= d <= 9 /\ c = digit_char d.
Proof.
  unfold sign_or_digit. intros H. apply orb_prop in H as [H | H].
  - right. apply is_digit_inv. exact H.
  - left. apply Ascii.eqb_eq. exact H.
Qed.

Lemma str_int_without (c : ascii) (z : Z) :
  sign_or_digit c = false -> forall pos, rfind c (str_int z) pos = None.
Proof.
  intros Hc. apply rfind_absent.
  apply (forall_weaken sign_or_digit); [| apply str_int_chars].
  intros x Hx. apply negb_true_iff. destruct (Ascii.eqb c x) eqn:E; [| reflexivity].
  apply Ascii.eqb_eq in E. subst x. congruence.
Qed.

(** ** [int(str(z))] *)

Lemma sign_or_digit_not_space (c : ascii) :
  sign_or_digit c = true -> is_int_space c = false.
Proof.
  intros H. apply sign_or_digit_cases in H as [-> | (d & Hd & ->)]; [reflexivity |].
  each_digit Hd; reflexivity.
Qed.

Lemma int_rstrip_plain (s : string) :
  string_forall sign_or_digit s = true -> int_rstrip s = s.
Proof.
  induction s as [| c s IH]; cbn [string_forall int_rstrip]; [reflexivity |].
  intros H. apply andb_prop in H as [Hc Hs]. rewrite (IH Hs).
  destruct s; [| reflexivity]. rewrite (sign_or_digit_not_space c Hc). reflexivity.
Qed.

Lemma int_strip_plain (s : string) :
  string_forall sign_or_digit s = true -> int_rstrip (int_lstrip s) = s.
Proof.
  intros H.
  assert (E : int_lstrip s = s).
  { destruct s as [| c s]; [reflexivity |]. cbn [int_lstrip]. cbn [string_forall] in H.
    apply andb_prop in H as [Hc _]. rewrite (sign_or_digit_not_space c Hc). reflexivity. }
  rewrite E. apply int_rstrip_plain. exact H.
Qed.

Lemma str_nonneg_nonempty (n : Z) : (1 <= String.length (str_nonneg n))%nat.
Proof.
  unfold str_nonneg. cbn [digits_aux]. destruct (n <? 10); [cbn [String.length]; lia |].
  etransitivity; [| apply digits_aux_length]. cbn [String.length]. lia.
Qed.

Lemma py_int_digits (d : string) :
  d <> EmptyString -> all_digits d = true -> py_int d = Ok (int_digits 0 d).
Proof.
  intros Hne Hd. unfold py_int. rewrite int_strip_plain by (apply all_digits_forall; exact Hd).
  destruct d as [| c d]; [congruence |].
  pose proof Hd as Hd'. cbn [all_digits] in Hd'. apply andb_prop in Hd' as [Hc _].
  destruct c as [[] [] [] [] [] [] [] []]; vm_compute in Hc; try discriminate Hc;
    cbv beta zeta match; rewrite Hd; f_equal; apply Z.mul_1_l.
Qed.

(** [int(str(z))] is [z]. *)
Lemma py_int_str_int (z : Z) : py_int (str_int z) = Ok z.
Proof.
  unfold str_int. destruct (z <? 0) eqn:E.
  - apply Z.ltb_lt in E. unfold py_int.
    rewrite int_strip_plain.
    2:{ cbn [string_forall]. rewrite all_digits_forall by (apply str_nonneg_all_digits; lia).
        reflexivity. }
    pose proof (str_nonneg_nonempty (- z)) as Hl.
    pose proof (str_nonneg_all_digits (- z) ltac:(lia)) as Hd.
    pose proof (str_nonneg_value (- z) ltac:(lia)) as Hv.
    destruct (str_nonneg (- z)) as [| c d]; [cbn [String.length] in Hl; lia |].
    cbv beta zeta match. rewrite Hd, Hv. f_equal. lia.
  - apply Z.ltb_ge in E. rewrite py_int_digits.
    + rewrite str_nonneg_value by exact E. reflexivity.
    + pose proof (str_nonneg_nonempty z) as Hl. intros H. rewrite H in Hl.
      cbn [String.length] in Hl. lia.
    + apply str_nonneg_all_digits. exact E.
Qed.

(** ** Names with an extension *)

Lemma suffix_dot_ext (a e : string) :
  a <> EmptyString -> e <> EmptyString ->
  (forall pos, rfind "." e pos = None) ->
  suffix_dot (a ++ String "." e) = Some (String.length a).
Proof.
  intros Ha He Hdot. unfold suffix_dot. rewrite (rfind_last "." a e Hdot).
  rewrite append_length. cbn [String.length Nat.add].
  assert (La : (0 < String.length a)%nat) by (destruct a; [congruence | cbn; lia]).
  assert (Le : (0 < String.length e)%nat) by (destruct e; [congruence | cbn; lia]).
  assert (E1 : (0 <? String.length a)%nat = true) by (apply Nat.ltb_lt; lia).
  assert (E2 : (String.length a <? String.length a + S (String.length e) - 1)%nat = true)
    by (apply Nat.ltb_lt; lia).
  rewrite E1, E2. reflexivity.
Qed.

Lemma suffix_ext (a e : string) :
  a <> EmptyString -> e <> EmptyString ->
  (forall pos, rfind "." e pos = None) ->
  suffix (a ++ String "." e) = String "." e /\ stem (a ++ String "." e) = a.
Proof.
  intros Ha He Hdot. unfold suffix, stem. rewrite (suffix_dot_ext a e Ha He Hdot).
  split; [| apply substring_prefix].
  replace (String.length (a ++ String "." e) - String.length a)%nat
    with (String.length (String "." e)) by (rewrite append_length; lia).
  apply substring_suffix.
Qed.

Lemma ends_with_app (a suf : string) : ends_with suf (a ++ suf) = true.
Proof.
  unfold ends_with. rewrite append_length.
  replace (String.length a + String.length suf - String.length suf)%nat
    with (String.length a) by lia.
  rewrite substring_suffix, String.eqb_refl.
  assert (E : (String.length suf <=? String.length a + String.length suf)%nat = true)
    by (apply Nat.leb_le; lia).
  rewrite E. reflexivity.
Qed.

Lemma last_piece_app (c : ascii) (a b : string) :
  (forall pos, rfind c b pos = None) ->
  last_piece c (a ++ String c b) = b.
Proof.
  intros Hb. unfold last_piece. rewrite (rfind_last c a b Hb). cbn [Nat.add].
  change (a ++ String c b) with (a ++ String c EmptyString ++ b).
  rewrite <- append_assoc_s.
  replace (S (String.length a)) with (String.length (a ++ String c EmptyString))
    by (rewrite append_length; cbn [String.length]; lia).
  replace (String.length ((a ++ String c EmptyString) ++ b)
           - String.length (a ++ String c EmptyString))%nat
    with (String.length b) by (rewrite (append_length (a ++ String c EmptyString)); lia).
  apply substring_suffix.
Qed.

Lemma wav_name_split (name : string) :
  suffix name = ".wav" -> name = stem name ++ ".wav" /\ stem name <> EmptyString.
Proof.
  unfold suffix, stem, suffix_dot.
  destruct (rfind "." name 0) as [i |] eqn:E; [| discriminate].
  destruct ((0 <? i)%nat && (i <? String.length name - 1)%nat) eqn:B; [| discriminate].
  apply andb_prop in B as [B1 B2]. apply Nat.ltb_lt in B1, B2.
  intros H. split.
  - rewrite <- H. apply substring_split. lia.
  - intros Hs.
    assert (L : String.length (substring 0 i name) = i) by (apply substring_length_le; lia).
    rewrite Hs in L. cbn [String.length] in L. lia.
Qed.

Lemma no_dot_in_wav : forall pos, rfind "." "wav" pos = None.
Proof. intros pos. reflexivity. Qed.

Lemma no_dot_in_srt : forall pos, rfind "." "srt" pos = None.
Proof. intros pos. reflexivity. Qed.

Lemma srt_stem (a : string) : a <> EmptyString -> stem (a ++ ".srt") = a.
Proof.
  intros Ha. apply (suffix_ext a "srt" Ha); [discriminate | exact no_dot_in_srt].
Qed.

(** ** The names the chunker gives *)

Lemma chunk_name_split (c : Chunk) : chunk_name c = chunk_stem c ++ ".wav".
Proof. unfold chunk_name, chunk_stem. rewrite !append_assoc_s. reflexivity. Qed.

Lemma chunk_stem_nonempty (c : Chunk) : chunk_stem c <> EmptyString.
Proof. unfold chunk_stem. cbn [append]. discriminate. Qed.

Lemma chunk_name_stem (c : Chunk) :
  suffix (chunk_name c) = ".wav" /\ stem (chunk_name c) = chunk_stem c.
Proof.
  rewrite chunk_name_split.
  apply (suffix_ext (chunk_stem c) "wav" (chunk_stem_nonempty c));
    [discriminate | exact no_dot_in_wav].
Qed.

Lemma chunk_stem_number (c : Chunk) :
  py_int (last_piece "_" (chunk_stem c)) = Ok (chunk_start c).
Proof.
  unfold chunk_stem.
  rewrite <- (append_assoc_s "chunk_" (str_int (chunk_idx c))).
  change ("_" ++ str_int (chunk_start c)) with (String "_" (str_int (chunk_start c))).
  rewrite last_piece_app by (apply str_int_without; reflexivity).
  apply py_int_str_int.
Qed.

(** X19: the file name the chunker gives a chunk has the suffix [.wav]; the
    transcript written for it is picked up by the [*.srt] pattern; and the
    number the assembler reads from the transcript's name is the start of the
    chunk in the original audio. *)
Theorem chunk_name_roundtrip (c : Chunk) :
  suffix (chunk_name c) = ".wav"
  /\ ends_with ".srt" (stem (chunk_name c) ++ ".srt") = true
  /\ py_int (last_piece "_" (stem (stem (chunk_name c) ++ ".srt")))
     = Ok (chunk_start c).
Proof.
  destruct (chunk_name_stem c) as [Hs Ht]. split; [exact Hs |].
  split; [apply ends_with_app |].
  rewrite Ht, (srt_stem _ (chunk_stem_nonempty c)). apply chunk_stem_number.
Qed.

(** ** The job *)

Lemma created_files (whisper : Chunk -> string) (d : directory Chunk)
    (name content : string) :
  In (name, content) (create_transcription whisper d)
  <-> exists n x,
        In (n, x) d /\ suffix n = ".wav"
        /\ name = stem n ++ ".srt" /\ content = universal_newlines (whisper x).
Proof.
  unfold create_transcription. rewrite in_map_iff. split.
  - intros ([n x] & Heq & Hin). cbn [fst snd] in Heq. injection Heq as <- <-.
    apply filter_In in Hin as [Hin Hsuf]. cbn [fst] in Hsuf.
    apply String.eqb_eq in Hsuf. apply (proj1 (sorted_In _ _)) in Hin.
    exists n, x. repeat split; assumption.
  - intros (n & x & Hin & Hsuf & -> & ->). exists (n, x). split; [reflexivity |].
    apply filter_In. split; [apply sorted_In; exact Hin |].
    cbn [fst]. apply String.eqb_eq. exact Hsuf.
Qed.

Lemma job_ok (whisper : Chunk -> string) (d : directory Chunk) :
  (forall name x,
     In (name, x) d -> suffix name = ".wav" ->
     exists z, py_int (last_piece "_" (stem name)) = Ok z) ->
  exists tr, transcribe_job whisper d = Ok tr.
Proof.
  intros H. unfold transcribe_job, process_transcription.
  apply merge_files_ok_iff, Forall_forall. intros [name content] Hin.
  apply srt_files_In in Hin as [Hin _].
  apply created_files in Hin as (n & x & Hin & Hsuf & -> & _).
  destruct (wav_name_split n Hsuf) as [_ Hne].
  cbn [fst]. rewrite (srt_stem (stem n) Hne). exact (H n x Hin Hsuf).
Qed.

(** X20: when transcribing and merging a directory of chunks returns, the
    last [_]-separated piece of the stem of every [.wav] file in it is an
    integer literal; files with another suffix are ignored.  Conversely the
    job returns when every such piece is an integer literal and no
    conversion meets the limit of 4300 digits: no such piece and no run of
    digits in an answer of the transcription service is longer than that. *)
Theorem job_succeeds (whisper : Chunk -> string) (d : directory Chunk) :
  ((exists tr, transcribe_job whisper d = Ok tr) ->
   forall name x,
     In (name, x) d -> suffix name = ".wav" ->
     exists z, py_int (last_piece "_" (stem name)) = Ok z)
  /\ ((forall name x,
         In (name, x) d -> suffix name = ".wav" ->
         (exists z, py_int (last_piece "_" (stem name)) = Ok z)
         /\ (String.length (last_piece "_" (stem name)) <= int_max_str_digits)%nat
         /\ digit_runs_within int_max_str_digits 0 (whisper x) = true) ->
      exists tr, transcribe_job whisper d = Ok tr).
Proof.
  split.
  - unfold transcribe_job, process_transcription.
    rewrite merge_files_ok_iff, Forall_forall.
    intros H name x Hin Hsuf.
    destruct (wav_name_split name Hsuf) as [_ Hne].
    rewrite <- (srt_stem (stem name) Hne).
    apply (H (stem name ++ ".srt", universal_newlines (whisper x))).
    apply srt_files_In. split; [| apply ends_with_app].
    apply created_files. exists name, x. repeat split; assumption.
  - intros H. apply job_ok. intros name x Hin Hsuf.
    exact (proj1 (H name x Hin Hsuf)).
Qed.

Lemma job_succeeds_witness :
  exists tr,
    transcribe_job two_cues
      [("chunk_0_0.wav", mkChunk 0 0 600000); ("notes.txt", mkChunk 0 0 0)] = Ok tr.
Proof.
  apply (proj2 (job_succeeds two_cues
                  [("chunk_0_0.wav", mkChunk 0 0 600000); ("notes.txt", mkChunk 0 0 0)])).
  intros name x Hin Hsuf.
  destruct Hin as [H | [H | []]]; injection H as <- <-;
    [| vm_compute in Hsuf; discriminate Hsuf].
  split; [eexists; vm_compute; reflexivity |].
  split; [apply Nat.leb_le |]; vm_compute; reflexivity.
Defined.

(** X21: for chunk files stored under the names the chunker gives them,
    transcribing and merging returns whatever the chunks, as long as no
    conversion meets the limit of 4300 digits: no start of a chunk and no
    run of digits in an answer of the transcription service is longer than
    that. *)
Theorem chunker_job_returns (whisper : Chunk -> string) (chunks : list Chunk) :
  (forall c,
     In c chunks ->
     within_str_digits (chunk_start c)
     /\ digit_runs_within int_max_str_digits 0 (whisper c) = true) ->
  exists tr, transcribe_job whisper (upload chunks) = Ok tr.
Proof.
  intros _. apply job_ok. intros name x Hin _.
  unfold upload in Hin. apply in_map_iff in Hin as (c & Heq & _).
  injection Heq as <- <-.
  destruct (chunk_name_stem c) as [_ ->].
  exists (chunk_start c). apply chunk_stem_number.
Qed.

Lemma chunker_job_returns_witness :
  exists tr,
    transcribe_job two_cues (upload [mkChunk 0 0 600000; mkChunk 1 600000 1200000])
    = Ok tr.
Proof.
  apply (chunker_job_returns two_cues [mkChunk 0 0 600000; mkChunk 1 600000 1200000]).
  intros c [<- | [<- | []]]; split; vm_compute; reflexivity.
Defined.

(** ** No two chunk files share a name *)

Lemma tiling_starts (cs : list Chunk) :
  forall a b,
    tiling a b cs = true ->
    Forall (fun c => a <= chunk_start c) cs /\ NoDup (map chunk_start cs).
Proof.
  induction cs as [| c rest IH]; intros a b; cbn [tiling map].
  - intros _. split; constructor.
  - intros H. apply andb_prop in H as [H Ht]. apply andb_prop in H as [Hs He].
    apply Z.eqb_eq in Hs. apply Z.ltb_lt in He.
    destruct (IH _ _ Ht) as [Hall Hnd]. split.
    + constructor; [lia |].
      eapply Forall_impl; [| exact Hall]. cbn beta. intros x Hx. lia.
    + constructor; [| exact Hnd].
      intros Hin. apply in_map_iff in Hin as (x & Hx & Hin).
      rewrite Forall_forall in Hall. specialize (Hall x Hin). lia.
Qed.

Lemma number_in_chunk_name (c : Chunk) : number_in_name (chunk_name c) = chunk_start c.
Proof.
  unfold number_in_name. destruct (chunk_name_stem c) as [_ ->].
  rewrite chunk_stem_number. reflexivity.
Qed.

(** X22: for a positive [max_duration_ms], no two chunks of one audio get
    the same file name, so no stored chunk overwrites another. *)
Theorem chunk_names_distinct (D M : Z) (mids : list Z) (cs : list Chunk) :
  0 < M ->
  chunk_audio D M mids = Some cs ->
  NoDup (map chunk_name cs).
Proof.
  intros HM H.
  assert (Hnd : NoDup (map chunk_start cs)).
  { unfold chunk_audio in H. destruct (D <=? M) eqn:E.
    - injection H as <-. repeat constructor. intros [].
    - apply Z.leb_gt in E.
      destruct (chunk_loop_tiles D M mids HM (S (Z.to_nat D)) 0 0)
        as (cs' & Hc & Ht & _); [lia | lia |].
      rewrite H in Hc. injection Hc as <-.
      assert (E0 : (0 <? D) = true) by (apply Z.ltb_lt; lia).
      rewrite E0 in Ht. exact (proj2 (tiling_starts cs 0 D Ht)). }
  apply (NoDup_map_inv number_in_name). rewrite map_map.
  rewrite (map_ext _ chunk_start number_in_chunk_name). exact Hnd.
Qed.

Lemma chunk_names_distinct_witness :
  0 < 10
  /\ exists cs,
       chunk_audio 25 10 [11; 3] = Some cs /\ NoDup (map chunk_name cs).
Proof.
  split; [lia |]. eexists. split; [vm_compute; reflexivity |].
  apply (chunk_names_distinct 25 10 [11; 3]); [lia | vm_compute; reflexivity].
Defined.

(** ** Rendering *)

Lemma to_srt_same_blocks (tr : Transcription.t) (a b a' b' : bool) :
  (forall e, In e (Transcription.subtitles tr) ->
     SubtitleEntry.to_srt_block e a b = SubtitleEntry.to_srt_block e a' b') ->
  Transcription.to_srt tr a b = Transcription.to_srt tr a' b'.
Proof.
  intros H. unfold Transcription.to_srt. f_equal. apply map_ext_in. exact H.
Qed.

Lemma block_without_translation (e : SubtitleEntry.t) (a b : bool) :
  truthy (SubtitleEntry.translation e) = false ->
  SubtitleEntry.to_srt_block e a b = SubtitleEntry.to_srt_block e false false.
Proof.
  intros H. unfold SubtitleEntry.to_srt_block. rewrite H, !andb_false_r. reflexivity.
Qed.

Lemma block_original (e1 e2 : SubtitleEntry.t) :
  original_fields e1 = original_fields e2 ->
  SubtitleEntry.to_srt_block e1 false false = SubtitleEntry.to_srt_block e2 false false.
Proof.
  unfold original_fields, SubtitleEntry.to_srt_block. intros [= -> -> -> ->]. reflexivity.
Qed.

Lemma to_srt_original (t1 t2 : Transcription.t) :
  map original_fields (Transcription.subtitles t1)
  = map original_fields (Transcription.subtitles t2) ->
  Transcription.to_srt t1 false false = Transcription.to_srt t2 false false.
Proof.
  unfold Transcription.to_srt. intros H. f_equal.
  revert H. generalize (Transcription.subtitles t2).
  induction (Transcription.subtitles t1) as [| e l IH]; intros [| e' l'] H;
    try discriminate H; [reflexivity |].
  cbn [map] in *.
  pose proof (f_equal (hd (original_fields e)) H) as He.
  pose proof (f_equal (@tl _) H) as Hl. cbn [hd tl] in He, Hl.
  rewrite (block_original _ _ He), (IH _ Hl). reflexivity.
Qed.

(** X23: when no entry has a non-empty translation, the translated and the
    bilingual document are the original-language document, character for
    character. *)
Theorem renderings_coincide (tr : Transcription.t) :
  Forall (fun e => truthy (SubtitleEntry.translation e) = false)
         (Transcription.subtitles tr) ->
  Transcription.to_srt tr true false = Transcription.to_srt tr false false
  /\ Transcription.to_srt tr false true = Transcription.to_srt tr false false.
Proof.
  intros H. rewrite Forall_forall in H.
  split; apply to_srt_same_blocks; intros e He;
    apply block_without_translation; exact (H e He).
Qed.

Lemma renderings_coincide_witness :
  Forall (fun e => truthy (SubtitleEntry.translation e) = false)
         (Transcription.subtitles (Transcription.Build [unmatched_entry] 0 1 None))
  /\ Transcription.to_srt (Transcription.Build [unmatched_entry] 0 1 None) true false
     = Transcription.to_srt (Transcription.Build [unmatched_entry] 0 1 None) false false
  /\ Transcription.to_srt (Transcription.Build [unmatched_entry] 0 1 None) false true
     = Transcription.to_srt (Transcription.Build [unmatched_entry] 0 1 None) false false.
Proof.
  assert (H : Forall (fun e => truthy (SubtitleEntry.translation e) = false)
                (Transcription.subtitles (Transcription.Build [unmatched_entry] 0 1 None)))
    by (repeat constructor).
  split; [exact H |].
  exact (renderings_coincide (Transcription.Build [unmatched_entry] 0 1 None) H).
Defined.

(** ** The translation pass, any batch size *)

Section TranslateAll.

Variable client : nat -> Prompt -> list Translation.
Variable lang : string.
Variables batch_size overlap : nat.
Hypothesis batch_pos : (0 < batch_size)%nat.

Lemma assign_answered (k : nat) (p : Prompt) (l : list SubtitleEntry.t) :
  Forall (answered client) (map (assign_translation (client k p)) l).
Proof.
  apply Forall_forall. intros e He. apply in_map_iff in He as (x & <- & _).
  exists k, p. reflexivity.
Qed.

Lemma original_assign (response : list Translation) (l : list SubtitleEntry.t) :
  map original_fields (map (assign_translation response) l) = map original_fields l.
Proof. rewrite map_map. apply map_ext. intros e. reflexivity. Qed.

Lemma batches_left (n c : nat) :
  S c = ((n + batch_size - 1) / batch_size)%nat ->
  (batch_size < n)%nat ->
  c = ((n - batch_size + batch_size - 1) / batch_size)%nat.
Proof.
  intros H Hn.
  replace (n + batch_size - 1)%nat
    with ((n - batch_size + batch_size - 1) + 1 * batch_size)%nat in H by lia.
  rewrite Nat.div_add in H by lia. lia.
Qed.

Lemma one_batch_left (n c : nat) :
  S c = ((n + batch_size - 1) / batch_size)%nat ->
  (n <= batch_size)%nat ->
  c = 0%nat.
Proof.
  intros H Hn.
  assert (((n + batch_size - 1) / batch_size < 2)%nat).
  { apply Nat.Div0.div_lt_upper_bound. lia. }
  lia.
Qed.

Lemma no_batch_left (n : nat) :
  0%nat = ((n + batch_size - 1) / batch_size)%nat -> n = 0%nat.
Proof.
  intros H. destruct n as [| n]; [reflexivity |].
  assert ((1 <= (S n + batch_size - 1) / batch_size)%nat).
  { apply Nat.div_le_lower_bound; lia. }
  lia.
Qed.

(** The loop over the batches of [todo], the entries [done] before them
    being left alone. *)
Lemma translate_loop_all (count : nat) :
  forall k done todo,
    count = ((List.length todo + batch_size - 1) / batch_size)%nat ->
    exists todo' ps,
      translate_loop client lang batch_size overlap k (done ++ todo)%list
        (range_from count (List.length done) batch_size)
      = ((done ++ todo')%list, ps)
      /\ List.length ps = count
      /\ map original_fields todo' = map original_fields todo
      /\ Forall (answered client) todo'.
Proof.
  induction count as [| c IH]; intros k done todo Hc.
  - apply no_batch_left in Hc. destruct todo; [| discriminate Hc].
    exists [], []. cbn [range_from translate_loop]. repeat split. constructor.
  - cbn [range_from translate_loop].
    set (mid := firstn batch_size todo). set (post := skipn batch_size todo).
    assert (Hsplit : todo = (mid ++ post)%list)
      by (symmetry; apply firstn_skipn).
    set (p := batch_prompt lang batch_size overlap (done ++ todo) (List.length done)).
    set (mid' := map (assign_translation (client k p)) mid).
    destruct (Nat.le_gt_cases (List.length todo) batch_size) as [Hle | Hgt].
    + assert (Hpost : post = []) by (apply skipn_all2; exact Hle).
      assert (Hmid : (List.length mid <= batch_size)%nat)
        by (unfold mid; rewrite length_firstn; lia).
      pose proof (translate_batch_app client lang batch_size overlap k done mid post
                    (or_intror (conj Hpost Hmid))) as E.
      rewrite <- Hsplit in E. fold p in E. fold mid' in E. rewrite E.
      rewrite (one_batch_left _ _ Hc Hle). cbn [range_from translate_loop].
      exists (mid' ++ post)%list. eexists. split; [reflexivity |].
      split; [reflexivity |]. split.
      * rewrite Hsplit at 1. rewrite !map_app. unfold mid'.
        rewrite original_assign. reflexivity.
      * rewrite Hpost, app_nil_r. apply assign_answered.
    + assert (Hmid : List.length mid = batch_size)
        by (unfold mid; rewrite length_firstn; lia).
      pose proof (translate_batch_app client lang batch_size overlap k done mid post
                    (or_introl Hmid)) as E.
      rewrite <- Hsplit in E. fold p in E. fold mid' in E. rewrite E.
      assert (Hc' : c = ((List.length post + batch_size - 1) / batch_size)%nat).
      { unfold post. rewrite length_skipn. apply batches_left; assumption. }
      destruct (IH (S k) (done ++ mid')%list post Hc') as (todo' & ps & Hl & Hn & Ho & Ha).
      rewrite length_app in Hl. unfold mid' in Hl at 2. rewrite length_map, Hmid in Hl.
      rewrite <- app_assoc in Hl. rewrite Hl.
      exists (mid' ++ todo')%list. eexists.
      split; [rewrite <- app_assoc; reflexivity |].
      split; [cbn [List.length]; rewrite Hn; reflexivity |]. split.
      * rewrite Hsplit at 1. rewrite !map_app, Ho. unfold mid'.
        rewrite original_assign. reflexivity.
      * apply Forall_app. split; [apply assign_answered | exact Ha].
Qed.

Lemma translate_result (self : Transcription.t) :
  exists subs calls,
    translate_subtitles client lang batch_size overlap self
    = Ok (Transcription.Build subs (Transcription.end_time self)
            (Transcription.end_index self) (Transcription.language self), calls)
    /\ List.length calls
       = ((List.length (Transcription.subtitles self) + batch_size - 1) / batch_size)%nat
    /\ map original_fields subs = map original_fields (Transcription.subtitles self)
    /\ Forall (answered client) subs.
Proof.
  destruct (translate_loop_all _ 0%nat [] (Transcription.subtitles self) eq_refl)
    as (todo' & ps & Hl & Hn & Ho & Ha).
  cbn [app List.length] in Hl.
  unfold translate_subtitles. destruct batch_size as [| b]; [lia |].
  unfold range_step. rewrite Hl.
  exists todo', ps. repeat split; assumption.
Qed.

Lemma map_from_app {A B : Type} (f : nat -> A -> B) (l1 l2 : list A) :
  forall i,
    map_from f i (l1 ++ l2)
    = (map_from f i l1 ++ map_from f (i + List.length l1) l2)%list.
Proof.
  induction l1 as [| x l1 IH]; intros i; cbn [app map_from List.length].
  - rewrite Nat.add_0_r. reflexivity.
  - rewrite IH. rewrite Nat.add_succ_r. reflexivity.
Qed.

Lemma range_from_length (count i step : nat) :
  List.length (range_from count i step) = count.
Proof.
  revert i. induction count as [| c IH]; intros i; cbn [range_from List.length];
    [reflexivity |].
  rewrite IH. reflexivity.
Qed.

Lemma original_map_from (orig l : list SubtitleEntry.t) :
  forall i,
    map original_fields
      (map_from (translated_entry client lang batch_size overlap orig) i l)
    = map original_fields l.
Proof.
  induction l as [| e l IH]; intros i; cbn [map_from map]; [reflexivity |].
  rewrite IH. reflexivity.
Qed.

(** The entries of one batch all get the answer to the prompt of the batch. *)
Lemma map_from_batch (orig : list SubtitleEntry.t) (k : nat) (l : list SubtitleEntry.t) :
  forall t,
    (t + List.length l <= batch_size)%nat ->
    map_from (translated_entry client lang batch_size overlap orig)
      (k * batch_size + t) l
    = map (assign_translation
             (client k (batch_prompt lang batch_size overlap orig (k * batch_size)))) l.
Proof.
  induction l as [| e l IH]; intros t Ht; cbn [map_from map List.length] in *;
    [reflexivity |].
  f_equal.
  - unfold translated_entry.
    replace ((k * batch_size + t) / batch_size)%nat with k; [reflexivity |].
    rewrite Nat.div_add_l by lia. rewrite Nat.div_small by lia. lia.
  - rewrite <- Nat.add_succ_r. apply IH. lia.
Qed.

(** The loop from batch number [k] on: the entries [done] of the batches
    before are left alone, every entry of [todo] gets the answer of its own
    batch, and every prompt is the one built from the entries [orig] the
    pass started with. *)
Lemma translate_loop_exact (orig : list SubtitleEntry.t) (count : nat) :
  forall k done todo,
    map id_text (done ++ todo) = map id_text orig ->
    List.length done = (k * batch_size)%nat ->
    count = ((List.length todo + batch_size - 1) / batch_size)%nat ->
    translate_loop client lang batch_size overlap k (done ++ todo)%list
      (range_from count (k * batch_size) batch_size)
    = ((done ++ map_from (translated_entry client lang batch_size overlap orig)
                  (k * batch_size) todo)%list,
       map (batch_prompt lang batch_size overlap orig)
         (range_from count (k * batch_size) batch_size)).
Proof.
  induction count as [| c IH]; intros k done todo Hid Hlen Hc.
  - apply no_batch_left in Hc. destruct todo; [| discriminate Hc]. reflexivity.
  - cbn [range_from translate_loop map].
    set (mid := firstn batch_size todo). set (post := skipn batch_size todo).
    assert (Hsplit : todo = (mid ++ post)%list)
      by (symmetry; apply firstn_skipn).
    rewrite (batch_prompt_ids lang batch_size overlap _ orig (k * batch_size) Hid).
    set (p := batch_prompt lang batch_size overlap orig (k * batch_size)).
    set (mid' := map (assign_translation (client k p)) mid).
    assert (Hm : forall l, (List.length l <= batch_size)%nat ->
                 map_from (translated_entry client lang batch_size overlap orig)
                   (k * batch_size) l
                 = map (assign_translation (client k p)) l).
    { intros l Hl. pose proof (map_from_batch orig k l 0 ltac:(lia)) as E.
      rewrite Nat.add_0_r in E. exact E. }
    destruct (Nat.le_gt_cases (List.length todo) batch_size) as [Hle | Hgt].
    + assert (Hpost : post = []) by (apply skipn_all2; exact Hle).
      assert (Hmid : (List.length mid <= batch_size)%nat)
        by (unfold mid; rewrite length_firstn; lia).
      pose proof (translate_batch_app client lang batch_size overlap k done mid post
                    (or_intror (conj Hpost Hmid))) as E.
      rewrite <- Hsplit, Hlen in E.
      rewrite (batch_prompt_ids lang batch_size overlap _ orig (k * batch_size) Hid) in E.
      fold p in E. fold mid' in E. rewrite E.
      rewrite (one_batch_left _ _ Hc Hle). cbn [range_from translate_loop map].
      f_equal. f_equal.
      rewrite (Hm todo Hle), Hsplit, map_app, Hpost, !app_nil_r. reflexivity.
    + assert (Hmid : List.length mid = batch_size)
        by (unfold mid; rewrite length_firstn; lia).
      pose proof (translate_batch_app client lang batch_size overlap k done mid post
                    (or_introl Hmid)) as E.
      rewrite <- Hsplit, Hlen in E.
      rewrite (batch_prompt_ids lang batch_size overlap _ orig (k * batch_size) Hid) in E.
      fold p in E. fold mid' in E. rewrite E.
      assert (Hc' : c = ((List.length post + batch_size - 1) / batch_size)%nat).
      { unfold post. rewrite length_skipn. apply batches_left; assumption. }
      assert (Hid' : map id_text ((done ++ mid') ++ post) = map id_text orig).
      { rewrite <- Hid, Hsplit, !map_app. unfold mid'.
        rewrite id_text_assign. symmetry. apply app_assoc. }
      assert (Hlen' : List.length (done ++ mid')%list = (S k * batch_size)%nat).
      { rewrite length_app. unfold mid'. rewrite length_map, Hmid, Hlen.
        rewrite Nat.mul_succ_l. reflexivity. }
      specialize (IH (S k) (done ++ mid')%list post Hid' Hlen' Hc').
      rewrite Nat.mul_succ_l in IH. rewrite <- app_assoc in IH. rewrite IH.
      f_equal. rewrite <- app_assoc. f_equal.
      rewrite Hsplit, map_from_app, Hmid. f_equal.
      symmetry. apply Hm. lia.
Qed.

(** The whole pass, entry by entry and call by call. *)
Lemma translate_exact (self : Transcription.t) :
  translate_subtitles client lang batch_size overlap self
  = Ok (Transcription.Build
          (map_from (translated_entry client lang batch_size overlap
                       (Transcription.subtitles self))
             0 (Transcription.subtitles self))
          (Transcription.end_time self) (Transcription.end_index self)
          (Transcription.language self),
        map (batch_prompt lang batch_size overlap (Transcription.subtitles self))
          (range_step (List.length (Transcription.subtitles self)) batch_size)).
Proof.
  pose proof (translate_loop_exact (Transcription.subtitles self) _ 0%nat []
                (Transcription.subtitles self) eq_refl eq_refl eq_refl) as H.
  cbn [app Nat.mul] in H.
  unfold translate_subtitles. destruct batch_size as [| b]; [lia |].
  unfold range_step. rewrite H. reflexivity.
Qed.

End TranslateAll.

(** X24: with any positive batch size and any translator, for a Timeline
    whose indices have at most 4300 digits (they are written into the
    prompts), the translation pass returns.  It calls the translator once per
    batch, ceil(n / batch_size) times for [n] entries; the prompt of call
    number [k] is the one of the batch that starts at position
    [k * batch_size], built from the indices and texts the Timeline had
    before the pass.  Afterwards the entry at position [j] holds, as
    translation, the text that the answer to call number [j / batch_size]
    gives for its index (the empty string when that answer has no such id);
    indices, times and texts are as before, and so are [end_time],
    [end_index] and the original-language document. *)
Theorem translate_every_entry (client : nat -> Prompt -> list Translation)
    (lang : string) (batch_size overlap : nat) (self : Transcription.t) :
  (0 < batch_size)%nat ->
  Forall (fun e => within_str_digits (SubtitleEntry.index e))
         (Transcription.subtitles self) ->
  exists out calls,
    translate_subtitles client lang batch_size overlap self = Ok (out, calls)
    /\ calls
       = map (batch_prompt lang batch_size overlap (Transcription.subtitles self))
           (range_step (List.length (Transcription.subtitles self)) batch_size)
    /\ List.length calls
       = ((List.length (Transcription.subtitles self) + batch_size - 1) / batch_size)%nat
    /\ Transcription.subtitles out
       = map_from (translated_entry client lang batch_size overlap
                     (Transcription.subtitles self))
           0 (Transcription.subtitles self)
    /\ map original_fields (Transcription.subtitles out)
       = map original_fields (Transcription.subtitles self)
    /\ Transcription.end_time out = Transcription.end_time self
    /\ Transcription.end_index out = Transcription.end_index self
    /\ Transcription.to_srt out false false = Transcription.to_srt self false false.
Proof.
  intros Hb _.
  eexists. eexists. split; [apply (translate_exact client lang batch_size overlap Hb) |].
  cbn [Transcription.subtitles Transcription.end_time Transcription.end_index].
  split; [reflexivity |].
  split; [unfold range_step; rewrite length_map; apply range_from_length |].
  split; [reflexivity |].
  split; [apply original_map_from |].
  split; [reflexivity |]. split; [reflexivity |].
  apply to_srt_original. cbn [Transcription.subtitles]. apply original_map_from.
Qed.

Lemma translate_every_entry_witness :
  exists out calls,
    translate_subtitles sparse_client "Chinese" 30 5 sample_timeline = Ok (out, calls)
    /\ List.length calls = 3%nat
    /\ map SubtitleEntry.translation (firstn 4 (Transcription.subtitles out))
       = [Some EmptyString; Some "ok"; Some EmptyString; Some "ok"].
Proof.
  destruct (translate_every_entry sparse_client "Chinese" 30 5 sample_timeline)
    as (out & calls & H & _ & Hn & Hs & _);
    [lia | apply Forall_forall; intros e He;
           apply in_map_iff in He as (n & <- & Hn); apply in_seq in Hn;
           unfold within_str_digits, sample_entry; cbn [SubtitleEntry.index];
           apply Z.lt_le_trans with (m := 66);
             [lia | apply Z.leb_le; vm_compute; reflexivity] |].
  exists out, calls. split; [exact H |]. split; [exact Hn |].
  rewrite Hs. vm_compute. reflexivity.
Defined.



(** ** The endpoint *)

(** X26: when the handler answers with the three documents, transcribing
    and merging the stored chunks has returned a Timeline, and the
    original-language document is the rendering of that Timeline, whatever
    the translator answered.  When the handler raises an [HTTPException] its
    status is 500, and it does raise one when transcribing and merging
    raises. *)
Theorem endpoint_answers (whisper : Chunk -> string)
    (client : nat -> Prompt -> list Translation)
    (chunks_dir : directory Chunk) (target_language : string) :
  (forall body,
     transcribe whisper client chunks_dir target_language = Response body ->
     exists merged,
       transcribe_job whisper chunks_dir = Ok merged
       /\ english_srt body = Transcription.to_srt merged false false)
  /\ (forall status detail,
        transcribe whisper client chunks_dir target_language
        = HTTPException status detail ->
        status = 500)
  /\ (forall e,
        transcribe_job whisper chunks_dir = Raise e ->
        exists detail,
          transcribe whisper client chunks_dir target_language
          = HTTPException 500 detail).
Proof.
  unfold transcribe.
  destruct (transcribe_job whisper chunks_dir) as [merged | e].
  - destruct (translate_result client target_language 30 5 ltac:(lia) merged)
      as (subs & calls & H & _ & Ho & _).
    rewrite H. split; [| split].
    + intros body [= <-]. exists merged. split; [reflexivity |].
      cbn [english_srt]. apply to_srt_original. exact Ho.
    + intros status detail Hr. discriminate Hr.
    + intros e He. discriminate He.
  - split; [| split].
    + intros body Hr. discriminate Hr.
    + intros status detail [= <- _]. reflexivity.
    + intros e' _. eexists. reflexivity.
Qed.

Lemma endpoint_answers_witness :
  exists body merged,
    transcribe two_cues silent_client (upload [mkChunk 0 0 600000]) "Chinese"
    = Response body
    /\ transcribe_job two_cues (upload [mkChunk 0 0 600000]) = Ok merged
    /\ english_srt body = Transcription.to_srt merged false false.
Proof.
  pose proof (proj1 (endpoint_answers two_cues silent_client
                       (upload [mkChunk 0 0 600000]) "Chinese")) as H.
  edestruct H as (merged & Hj & He); [vm_compute; reflexivity |].
  eexists. exists merged. split; [vm_compute; reflexivity |].
  split; [exact Hj | exact He].
Defined.

(** ** Parsing a rendered Timeline *)

Lemma expect_app (lit r : string) : expect lit (lit ++ r) = Some r.
Proof.
  induction lit as [| c lit IH]; cbn [append expect]; [reflexivity |].
  rewrite Ascii.eqb_refl. exact IH.
Qed.

Lemma digit_run_nl (d r : string) :
  all_digits d = true -> digit_run (d ++ NL ++ r) = (d, NL ++ r).
Proof.
  induction d as [| c d IH]; cbn [all_digits append digit_run]; intros H.
  - reflexivity.
  - apply andb_prop in H as [Hc Hd]. rewrite Hc, (IH Hd). reflexivity.
Qed.

Lemma take_stamp_app (st r : string) :
  stamp_form st = true -> take_stamp (st ++ r) = Some (st, r).
Proof.
  intros H.
  do 12 (destruct st as [| ? st]; [discriminate H |]).
  destruct st; [| discriminate H].
  cbn [stamp_form] in H.
  repeat match goal with
    | H : _ && _ = true |- _ => apply andb_prop in H; destruct H
    end.
  repeat match goal with
    | H : Ascii.eqb _ _ = true |- _ => apply Ascii.eqb_eq in H; subst
    end.
  unfold take_stamp.
  repeat (cbn [append take_digits expect obind];
          first [ rewrite Ascii.eqb_refl
                | match goal with
                  | H : is_digit ?c = true |- context [is_digit ?c] => rewrite H
                  end ]).
  reflexivity.
Qed.

Lemma lazy_text_app (t r : string) :
  tight t = true -> lazy_text (t ++ NL ++ NL ++ r) = (t, NL ++ NL ++ r).
Proof.
  induction t as [| c t IH]; intros H.
  - reflexivity.
  - cbn [tight] in H. apply andb_prop in H as [Hc Ht].
    apply negb_true_iff in Hc.
    change ((String c t) ++ NL ++ NL ++ r) with (String c (t ++ NL ++ NL ++ r)).
    cbn [lazy_text]. rewrite (IH Ht).
    assert (E : expect (NL ++ NL) (String c (t ++ NL ++ NL ++ r)) = None).
    { change (NL ++ NL) with (String nl (String nl EmptyString)). cbn [expect].
      destruct (Ascii.eqb nl c); [| reflexivity].
      destruct t as [| c' t]; [discriminate Hc |].
      cbn [andb] in Hc. cbn [append]. rewrite Hc. reflexivity. }
    rewrite E. reflexivity.
Qed.

Lemma match_block_rendered (d st en text r : string) :
  d <> EmptyString -> all_digits d = true ->
  stamp_form st = true -> stamp_form en = true ->
  text <> EmptyString -> tight text = true ->
  match_block (d ++ NL ++ st ++ " --> " ++ en ++ NL ++ text ++ NL ++ NL ++ r)
  = Some (d, st, en, text, NL ++ NL ++ r).
Proof.
  intros Hd Hdig Hst Hen Ht Htight. unfold match_block.
  rewrite (digit_run_nl d _ Hdig).
  destruct d as [| c d]; [congruence |].
  rewrite expect_app. cbn [obind].
  rewrite (take_stamp_app st _ Hst). cbn [obind].
  rewrite expect_app. cbn [obind].
  rewrite (take_stamp_app en _ Hen). cbn [obind].
  rewrite expect_app. cbn [obind].
  destruct text as [| c' t]; [congruence |].
  change ((String c' t) ++ NL ++ NL ++ r) with (String c' (t ++ NL ++ NL ++ r)).
  cbn [tight] in Htight. apply andb_prop in Htight as [_ Htight].
  rewrite (lazy_text_app t r Htight). reflexivity.
Qed.

Lemma findall_skip (a r : string) : findall (String.length a) (a ++ r) = findall 0 r.
Proof.
  induction a as [| c a IH]; [reflexivity |].
  cbn [String.length append findall]. exact IH.
Qed.

Lemma findall_nl (r : string) : findall 0 (NL ++ r) = findall 0 r.
Proof. reflexivity. Qed.

Lemma findall_rendered (d st en text r : string) :
  d <> EmptyString -> all_digits d = true ->
  stamp_form st = true -> stamp_form en = true ->
  text <> EmptyString -> tight text = true ->
  findall 0 (d ++ NL ++ st ++ " --> " ++ en ++ NL ++ text ++ NL ++ NL ++ r)
  = (d, st, en, text) :: findall 0 r.
Proof.
  intros Hd Hdig Hst Hen Ht Htight.
  pose proof (match_block_rendered d st en text r Hd Hdig Hst Hen Ht Htight) as M.
  destruct d as [| c d]; [congruence |].
  set (a := d ++ NL ++ st ++ " --> " ++ en ++ NL ++ text).
  assert (E : String c d ++ NL ++ st ++ " --> " ++ en ++ NL ++ text ++ NL ++ NL ++ r
              = String c (a ++ NL ++ NL ++ r)).
  { unfold a. rewrite !append_assoc_s. reflexivity. }
  rewrite E in *. clearbody a.
  cbn [findall]. rewrite M. f_equal.
  replace (String.length (String c (a ++ NL ++ NL ++ r))
           - String.length (NL ++ NL ++ r) - 1)%nat
    with (String.length a)
    by (cbn [String.length]; rewrite (append_length a); lia).
  rewrite findall_skip, !findall_nl. reflexivity.
Qed.
Lemma lstrip_length (s : string) : (String.length (lstrip s) <= String.length s)%nat.
Proof.
  induction s as [| c s IH]; cbn [lstrip String.length]; [lia |].
  destruct (is_space c); cbn [String.length]; lia.
Qed.

Lemma rstrip_length (s : string) : (String.length (rstrip s) <= String.length s)%nat.
Proof.
  induction s as [| c s IH]; cbn [rstrip String.length]; [lia |].
  destruct (rstrip s) as [| x r].
  - destruct (is_space c); cbn [String.length]; lia.
  - cbn [String.length] in *. lia.
Qed.

Lemma strip_fixed (t : string) : strip t = t -> rstrip t = t.
Proof.
  unfold strip. intros H.
  assert (L : lstrip t = t).
  { destruct t as [| c t]; [reflexivity |]. cbn [lstrip] in *.
    destruct (is_space c); [| reflexivity].
    pose proof (rstrip_length (lstrip t)) as L1. pose proof (lstrip_length t) as L2.
    rewrite H in L1. cbn [String.length] in L1. lia. }
  rewrite L in H. exact H.
Qed.

Lemma rstrip_keep (a b : string) :
  rstrip b <> EmptyString -> rstrip (a ++ b) = a ++ rstrip b.
Proof.
  intros Hb. induction a as [| c a IH]; cbn [append rstrip]; [reflexivity |].
  rewrite IH. destruct (a ++ rstrip b) as [| x r] eqn:E; [| reflexivity].
  destruct a; [cbn [append] in E; congruence | discriminate E].
Qed.

Lemma rstrip_drop (a : string) (c : ascii) :
  is_space c = true -> rstrip (a ++ String c EmptyString) = rstrip a.
Proof.
  intros Hc. induction a as [| x a IH]; cbn [append rstrip].
  - rewrite Hc. reflexivity.
  - rewrite IH. reflexivity.
Qed.

Lemma block_text (e : SubtitleEntry.t) :
  SubtitleEntry.to_srt_block e false false
  = (str_int (SubtitleEntry.index e) ++ NL ++ SubtitleEntry.start_time e ++ " --> "
       ++ SubtitleEntry.end_time e ++ NL ++ SubtitleEntry.text e) ++ NL.
Proof. unfold SubtitleEntry.to_srt_block. cbn [andb]. rewrite !append_assoc_s. reflexivity. Qed.

Lemma index_digits (z : Z) :
  0 <= z ->
  str_int z <> EmptyString /\ all_digits (str_int z) = true
  /\ int_digits 0 (str_int z) = z.
Proof.
  intros Hz. unfold str_int.
  assert (E : (z <? 0) = false) by (apply Z.ltb_ge; exact Hz). rewrite E.
  split; [| split; [apply str_nonneg_all_digits; exact Hz | apply str_nonneg_value; exact Hz]].
  pose proof (str_nonneg_nonempty z) as L. intros H. rewrite H in L.
  cbn [String.length] in L. lia.
Qed.

Lemma rstrip_block (e : SubtitleEntry.t) :
  parsed_form e ->
  SubtitleEntry.to_srt_block e false false
  = rstrip (SubtitleEntry.to_srt_block e false false) ++ NL
  /\ rstrip (SubtitleEntry.to_srt_block e false false) <> EmptyString.
Proof.
  intros (Hi & _ & Hne & Hs & _). apply strip_fixed in Hs.
  assert (K : forall a, rstrip (a ++ SubtitleEntry.text e) = a ++ SubtitleEntry.text e).
  { intros a. rewrite rstrip_keep; rewrite Hs; [reflexivity | exact Hne]. }
  assert (R : rstrip (SubtitleEntry.to_srt_block e false false)
              = str_int (SubtitleEntry.index e) ++ NL ++ SubtitleEntry.start_time e
                  ++ " --> " ++ SubtitleEntry.end_time e ++ NL ++ SubtitleEntry.text e).
  { rewrite block_text.
    set (X := str_int (SubtitleEntry.index e) ++ NL ++ SubtitleEntry.start_time e
                ++ " --> " ++ SubtitleEntry.end_time e ++ NL ++ SubtitleEntry.text e).
    change (X ++ NL) with (X ++ String nl EmptyString).
    rewrite rstrip_drop by reflexivity. unfold X.
    rewrite <- !append_assoc_s, K. reflexivity. }
  rewrite R. split; [apply block_text |].
  destruct (index_digits _ Hi) as [Hd _].
  destruct (str_int (SubtitleEntry.index e)); [congruence | discriminate].
Qed.

Lemma block_starts_with_digit (e : SubtitleEntry.t) :
  parsed_form e ->
  exists c rest,
    SubtitleEntry.to_srt_block e false false = String c rest /\ is_digit c = true.
Proof.
  intros (Hi & _). destruct (index_digits _ Hi) as (Hd & Ha & _).
  unfold SubtitleEntry.to_srt_block.
  destruct (str_int (SubtitleEntry.index e)) as [| c d]; [congruence |].
  cbn [all_digits] in Ha. apply andb_prop in Ha as [Hc _].
  exists c. eexists. split; [reflexivity | exact Hc].
Qed.

Lemma rendered_scanned (e : SubtitleEntry.t) (l : list SubtitleEntry.t) :
  Forall parsed_form (e :: l) ->
  strip (String.concat NL
           (map (fun sub => SubtitleEntry.to_srt_block sub false false) (e :: l)))
    ++ NL ++ NL
  = srt_stream (e :: l).
Proof.
  intros H.
  set (blk := fun sub => SubtitleEntry.to_srt_block sub false false).
  assert (R : rstrip (String.concat NL (map blk (e :: l))) ++ NL ++ NL = srt_stream (e :: l)
              /\ rstrip (String.concat NL (map blk (e :: l))) <> EmptyString).
  { revert e H. induction l as [| e' l IH]; intros e H.
    - inversion H as [| ? ? He _]; subst. destruct (rstrip_block e He) as [Hb Hn].
      cbn [map String.concat srt_stream]. unfold blk. split; [| exact Hn].
      rewrite Hb at 2. rewrite !append_assoc_s. reflexivity.
    - inversion H as [| ? ? He Hl]; subst. destruct (IH e' Hl) as [IH1 IH2].
      change (String.concat NL (map blk (e :: e' :: l)))
        with (blk e ++ NL ++ String.concat NL (map blk (e' :: l))).
      rewrite <- (append_assoc_s (blk e) NL), (rstrip_keep (blk e ++ NL) _ IH2).
      split.
      + rewrite !append_assoc_s, IH1. reflexivity.
      + destruct (block_starts_with_digit e He) as (c & rest & Hc & _).
        unfold blk. rewrite Hc. discriminate. }
  destruct R as [R _]. rewrite <- R. f_equal. unfold strip. f_equal.
  inversion H as [| ? ? He _]; subst.
  destruct (block_starts_with_digit e He) as (c & rest & Hc & Hd).
  assert (Hsp : is_space c = false).
  { apply is_digit_inv in Hd as (x & Hx & ->). each_digit Hx; reflexivity. }
  destruct l as [| e' l].
  - cbn [map String.concat]. unfold blk. rewrite Hc. cbn [lstrip]. rewrite Hsp. reflexivity.
  - change (String.concat NL (map blk (e :: e' :: l)))
      with (blk e ++ NL ++ String.concat NL (map blk (e' :: l))).
    unfold blk at 1 3. rewrite Hc. cbn [append lstrip]. rewrite Hsp. reflexivity.
Qed.

Lemma findall_stream (l : list SubtitleEntry.t) :
  Forall parsed_form l ->
  findall 0 (srt_stream l)
  = map (fun e => (str_int (SubtitleEntry.index e), SubtitleEntry.start_time e,
                   SubtitleEntry.end_time e, SubtitleEntry.text e)) l.
Proof.
  induction 1 as [| e l (Hi & [Hs He] & Hne & _ & Ht) Hl IH]; [reflexivity |].
  cbn [srt_stream map]. rewrite block_text, !append_assoc_s.
  destruct (index_digits _ Hi) as (Hd & Ha & _).
  rewrite (findall_rendered _ _ _ _ _ Hd Ha Hs He Hne Ht), IH. reflexivity.
Qed.

(** X27: a Timeline whose entries have the form [from_srt] gives them is
    recovered from its original-language document: parsing what [to_srt]
    renders returns the same entries in the same order, without their
    translations. *)
Theorem parse_rendered (tr : Transcription.t) (end_time : Z) :
  Forall parsed_form (Transcription.subtitles tr) ->
  Transcription.subtitles
    (Transcription.from_srt (Transcription.to_srt tr false false) end_time)
  = map untranslated (Transcription.subtitles tr).
Proof.
  intros H. unfold Transcription.from_srt, Transcription.to_srt.
  cbn [Transcription.subtitles].
  destruct (Transcription.subtitles tr) as [| e l]; [reflexivity |].
  rewrite (rendered_scanned e l H), (findall_stream _ H), map_map.
  apply map_ext_in. intros x Hx. rewrite Forall_forall in H.
  destruct (H x Hx) as (Hi & _ & _ & Hs & _).
  destruct (index_digits _ Hi) as (_ & _ & Hv).
  rewrite Hv, Hs. reflexivity.
Qed.

Lemma parse_rendered_witness :
  Forall parsed_form (Transcription.subtitles short_timeline)
  /\ Transcription.subtitles
       (Transcription.from_srt (Transcription.to_srt short_timeline false false) 0)
     = map untranslated (Transcription.subtitles short_timeline).
Proof.
  assert (H : Forall parsed_form (Transcription.subtitles short_timeline)).
  { repeat constructor; try discriminate; cbn; lia. }
  split; [exact H | exact (parse_rendered short_timeline 0 H)].
Defined.
